(** * IndiaDisasterFeed (relief_script.js): a shallow embedding

    The development follows the class [IndiaDisasterFeed] method by method.
    JavaScript values that the code can observe are kept explicit:
    [undefined], strings, the members an object literal inherits from
    [Object.prototype], invalid dates, thrown errors.  A text is the [string]
    of the bytes of its UTF-8 encoding, so that an ASCII word occurs in a text
    exactly when its bytes occur in the encoding.  The lower-casing of
    [calculateSeverity] is the host's, taken as a parameter; the white space
    of [trim] and of [\s], and the case mapping on a card, are those of
    ASCII.  Numbers read from a payload are the exact values of the doubles,
    as rationals. *)

From Stdlib Require Import Ascii String QArith.
From stdpp Require Import base option list sorting strings gmap pretty.

Local Open Scope Z_scope.
Local Open Scope string_scope.
Local Open Scope list_scope.

(** ** JavaScript values *)

Module Js.

(** The values a field of a normalised event can hold. [Inherited n] is the
    member named [n] that every object literal inherits from
    [Object.prototype] (a function, or the prototype object itself for
    [__proto__]). *)
Inductive value :=
| Undefined
| Number (z : Z)
| Str (s : string)
| Inherited (n : string).

#[global] Instance value_eq_dec : EqDecision value.
Proof. solve_decision. Defined.

Definition of_option (o : option string) : value :=
  match o with Some s => Str s | None => Undefined end.

(** ToBoolean *)
Definition truthy (v : value) : bool :=
  match v with
  | Undefined => false
  | Number z => negb (z =? 0)%Z
  | Str s => negb (String.eqb s "")
  | Inherited _ => true
  end.

(** [a || b] *)
Definition or (a b : value) : value := if truthy a then a else b.

(** [a || b] on optional strings, and [a || 'literal']. *)
Definition truthy_opt (o : option string) : bool := truthy (of_option o).

Definition or_opt (a b : option string) : option string :=
  if truthy_opt a then a else b.

Definition or_lit (a : option string) (d : string) : string :=
  match a with
  | Some s => if String.eqb s "" then d else s
  | None => d
  end.

(** The property names of [Object.prototype]. *)
Definition Object_prototype : list string :=
  [ "constructor"; "hasOwnProperty"; "isPrototypeOf"; "propertyIsEnumerable";
    "toLocaleString"; "toString"; "valueOf"; "__proto__";
    "__defineGetter__"; "__defineSetter__"; "__lookupGetter__";
    "__lookupSetter__" ].

Definition inherited (k : string) : bool :=
  bool_decide (k ∈ Object_prototype).

(** ToString, as used by template literals and by property keys. *)
Definition ToString (v : value) : string :=
  match v with
  | Undefined => "undefined"
  | Number z => pretty z
  | Str s => s
  | Inherited n =>
      if String.eqb n "__proto__" then "[object Object]"
      else if String.eqb n "constructor" then "function Object() { [native code] }"
      else "function " +:+ n +:+ "() { [native code] }"
  end.

(** [obj[key]] for an object literal with own properties [own]: the own
    property if there is one, else the member inherited from
    [Object.prototype], else [undefined]. *)
Inductive property (A : Type) :=
| Own (a : A)
| Proto (n : string)
| Missing.
Arguments Own {A} a.
Arguments Proto {A} n.
Arguments Missing {A}.

Definition get {A} (own : gmap string A) (key : value) : property A :=
  let k := ToString key in
  match own !! k with
  | Some a => Own a
  | None => if inherited k then Proto k else Missing
  end.

Definition of_property (p : property string) : value :=
  match p with
  | Own s => Str s
  | Proto n => Inherited n
  | Missing => Undefined
  end.

(** [x !== y] and [x - y] on what a table of numbers yields; the difference
    is NaN ([None]) unless both operands are numbers. *)
Definition strict_ne (x y : property Z) : bool :=
  match x, y with
  | Own a, Own b => negb (a =? b)%Z
  | Proto n, Proto m => negb (String.eqb n m)
  | Missing, Missing => false
  | _, _ => true
  end.

Definition minus (x y : property Z) : option Z :=
  match x, y with
  | Own a, Own b => Some (a - b)%Z
  | _, _ => None
  end.

(** Thrown values. *)
Inductive error :=
| Error (msg : string)
| TypeError (msg : string)
| SyntaxError (msg : string).

(** [error.message] *)
Definition message (e : error) : string :=
  match e with Error m | TypeError m | SyntaxError m => m end.

(** The time value of a [Date]: [None] is the invalid date (NaN). *)
Definition Date := option Z.

Definition max_time : Z := 8640000000000000.

(** TimeClip *)
Definition TimeClip (t : Z) : Date :=
  if (Z.abs t <=? max_time)%Z then Some t else None.

(** [new Date(number)] *)
Definition Date_of_number (t : Z) : Date := TimeClip t.

(** ASCII case mapping and white space. *)
Definition lower_ascii (c : ascii) : ascii :=
  let n := N_of_ascii c in
  if ((65 <=? n) && (n <=? 90))%N then ascii_of_N (n + 32) else c.

Definition upper_ascii (c : ascii) : ascii :=
  let n := N_of_ascii c in
  if ((97 <=? n) && (n <=? 122))%N then ascii_of_N (n - 32) else c.

Fixpoint toLowerCase (s : string) : string :=
  match s with
  | EmptyString => EmptyString
  | String c s' => String (lower_ascii c) (toLowerCase s')
  end.

Definition is_space (c : ascii) : bool :=
  let n := N_of_ascii c in
  ((9 <=? n) && (n <=? 13) || (n =? 32))%N.

Fixpoint trimStart (s : string) : string :=
  match s with
  | String c s' => if is_space c then trimStart s' else s
  | EmptyString => EmptyString
  end.

Fixpoint trimEnd (s : string) : string :=
  match s with
  | EmptyString => EmptyString
  | String c s' =>
      match trimEnd s' with
      | EmptyString => if is_space c then EmptyString else String c EmptyString
      | r => String c r
      end
  end.

Definition trim (s : string) : string := trimEnd (trimStart s).

(** A regular expression [/w1|w2|.../i] whose alternatives are literal
    words: [s.match(re)] is truthy when some word occurs in [s], characters
    being compared after Canonicalize (upper-casing). *)
Fixpoint prefix_i (w s : string) : bool :=
  match w, s with
  | EmptyString, _ => true
  | String a w', String b s' =>
      bool_decide (upper_ascii a = upper_ascii b) && prefix_i w' s'
  | String _ _, EmptyString => false
  end.

Fixpoint search_i (w s : string) : bool :=
  prefix_i w s ||
  match s with
  | EmptyString => false
  | String _ s' => search_i w s'
  end.

Definition match_i (alternatives : list string) (s : string) : bool :=
  existsb (fun w => search_i w s) alternatives.

End Js.

(** ** The normalised record *)

Record DisasterEvent := {
  id : Js.value;
  title : Js.value;
  description : string;
  date : Js.Date;
  location : string;
  disasterType : Js.value;
  severity : Js.value;
  source : string;
  url : string;
  country : string
}.

#[global] Instance DisasterEvent_eq_dec : EqDecision DisasterEvent.
Proof. solve_decision. Defined.

(** ** GDACS code tables *)

(* Map GDACS event types *)
Definition mapGDACSEventType (type : Js.value) : Js.value :=
  let mapping : gmap string string := list_to_map
    [ ("EQ", "Earthquake");
      ("TC", "Tropical Cyclone");
      ("FL", "Flood");
      ("DR", "Drought");
      ("VO", "Volcano");
      ("WF", "Wildfire") ] in
  Js.or (Js.of_property (Js.get mapping type)) type.

(* Map GDACS alert levels *)
Definition mapGDACSAlertLevel (level : Js.value) : Js.value :=
  let mapping : gmap string string := list_to_map
    [ ("Red", "high");
      ("Orange", "medium");
      ("Green", "low") ] in
  Js.or (Js.of_property (Js.get mapping level)) (Js.Str "low").

(** ** Results of code that may throw *)

Inductive result (A : Type) :=
| Ok (a : A)
| Throw (e : Js.error).
Arguments Ok {A} a.
Arguments Throw {A} e.

Definition rbind {A B} (r : result A) (k : A → result B) : result B :=
  match r with Ok a => k a | Throw e => Throw e end.

(** [array.map(f)] and [array.filter(f)] with a callback that may throw: the
    first exception ends the traversal. *)
Fixpoint map_r {A B} (f : A → result B) (l : list A) : result (list B) :=
  match l with
  | [] => Ok []
  | x :: l' => rbind (f x) (λ y, rbind (map_r f l') (λ ys, Ok (y :: ys)))
  end.

Fixpoint filter_r {A} (f : A → result bool) (l : list A) : result (list A) :=
  match l with
  | [] => Ok []
  | x :: l' =>
      rbind (f x) (λ b, rbind (filter_r f l')
        (λ ys, Ok (if b then x :: ys else ys)))
  end.

(** Reading a property of [undefined]. *)
Definition read_of_undefined (prop : string) : Js.error :=
  Js.TypeError ("Cannot read properties of undefined (reading '" +:+ prop +:+ "')").

(** ** Provider payloads

    Each payload is typed after the fields the code reads: a field that the
    provider may leave out is an [option] ([None] is [undefined]); a field
    that is present has the JSON type the code expects (a string where the
    code reads text, an array where it indexes, and for the coordinates of
    an EONET geometry the numbers of a point, longitude first). *)

Record named := { name : option string }.

(** [o?.[0]?.name] *)
Definition first_name (o : option (list named)) : option string :=
  l ← o; n ← head l; name n.

Module ReliefWeb.

Record headline := { summary : option string }.

Record dates := { created : option string; original : option string }.

Record fields := {
  title : option string;
  body : option string;
  headline_ : option headline;
  date : option dates;
  primary_country : option named;
  country : option (list named);
  location : option (list named);
  disaster_type : option (list named);
  theme : option (list named);
  source : option (list named);
  url : option string;
  url_alias : option string
}.

Record item := { id : Js.value; fields_ : option fields }.

Record json := { data : option (list item) }.

End ReliefWeb.

Module Gdacs.

Record properties := {
  eventid : Js.value;
  name : option string;
  description : option string;
  eventtype : option string;
  country : option string;
  fromdate : option string;
  alertlevel : option string;
  url : option string
}.

Record feature := { properties_ : option properties }.

Record json := { features : option (list feature) }.

End Gdacs.

Module Eonet.

Record category := { title : option string }.

Record source := { url : option string }.

Record geometry := { date : option string; coordinates : option (list Q) }.

Record event := {
  id : Js.value;
  title_ : option string;
  description : option string;
  link : option string;
  categories : option (list category);
  sources : option (list source);
  geometry_ : option (list geometry)
}.

Record json := { events : option (list event) }.

End Eonet.

(** ** The host: network, clock, console, page *)

(** What [fetch(url)] settles to: a rejection, or a response whose
    [json()] resolves to a payload or rejects. *)
Inductive http (A : Type) :=
| Rejected (e : Js.error)
| Response (ok : bool) (status : Z) (body : result A).
Arguments Rejected {A} e.
Arguments Response {A} ok status body.

Record World := {
  reliefweb_api : http ReliefWeb.json;
  gdacs_api : http Gdacs.json;
  eonet_api : http Eonet.json;
  (** time that passes, in ms, while the request to a URL is awaited *)
  delay : string → Z
}.

Inductive effect :=
| Fetch (url : string)
| console_log (msg : string)
| console_warn (msg : string) (e : Js.error)
| console_error (msg : string) (e : Js.error)
| ShowLoading
| ShowError (msg : string)
| ShowEmpty
| ShowCards (cards : list DisasterEvent)
| ShowLastUpdated (now : Z).

Record io := { clock : Z; trace : list effect }.

(** Asynchronous code: it reads the world, moves the clock, leaves a trace,
    and resolves or rejects. *)
Definition Async (A : Type) : Type := World → io → result A * io.

Definition resolve {A} (a : A) : Async A := λ _ s, (Ok a, s).

Definition throw {A} (e : Js.error) : Async A := λ _ s, (Throw e, s).

Definition await {A B} (m : Async A) (k : A → Async B) : Async B :=
  λ w s, match m w s with
         | (Ok a, s') => k a w s'
         | (Throw e, s') => (Throw e, s')
         end.

Definition try_catch {A} (m : Async A) (handler : Js.error → Async A) : Async A :=
  λ w s, match m w s with
         | (Ok a, s') => (Ok a, s')
         | (Throw e, s') => handler e w s'
         end.

Definition lift {A} (r : result A) : Async A := λ _ s, (r, s).

Definition emit (e : effect) : Async unit :=
  λ _ s, (Ok (), {| clock := clock s; trace := trace s ++ [e] |}).

Definition Date_now : Async Z := λ _ s, (Ok (clock s), s).

Definition fetch {A} (url : string) (api : World → http A)
  : Async (bool * Z * result A) :=
  λ w s,
    let s' := {| clock := clock s + delay w url; trace := trace s ++ [Fetch url] |} in
    match api w with
    | Rejected e => (Throw e, s')
    | Response ok status body => (Ok (ok, status, body), s')
    end.

Declare Scope async_scope.
Delimit Scope async_scope with async.
Notation "'let*' x := m 'in' k" := (await m (λ x, k))
  (at level 10, x name, m at level 100, k at level 200) : async_scope.
Notation "'let*' ' x := m 'in' k" := (await m (λ x, k))
  (at level 10, x strict pattern, m at level 100, k at level 200) : async_scope.
Notation "m ;;; k" := (await m (λ _, k))
  (at level 100, k at level 200, right associativity) : async_scope.
Local Open Scope async_scope.

(** ** The class [IndiaDisasterFeed] *)

Record Cache := {
  data : option (list DisasterEvent);   (* [None] is [null] *)
  timestamp : option Z;
  duration : Z
}.

(* constructor *)
Definition new_cache : Cache :=
  {| data := None; timestamp := None; duration := 5 * 60 * 1000 |}.

Definition reliefweb_url : string :=
  "https://api.reliefweb.int/v1/reports?appname=apidoc&profile=list&preset=latest&limit=10&query[value]=country.id:119".

Definition gdacs_url : string :=
  "https://www.gdacs.org/gdacsapi/api/events/geteventlist/MAP?fromDate=&toDate=&alertlevel=;Orange;Red&country=IND&limit=10".

Definition eonet_url : string :=
  "https://eonet.gsfc.nasa.gov/api/v3/events?status=open&limit=20".

(** ** Ranking

    [Array.prototype.sort] with a comparison function: the sort is stable,
    and a NaN from the comparison function counts as 0 (SortCompare).  The
    model is the stable insertion sort; [stable_sort_unique] below shows that
    under a consistent comparison every stable sort returns the same list,
    which [compareFn] is on events with a severity level and a valid date.
    On other lists ECMAScript leaves the order to the engine, and [sort] is
    one of the orders an engine may return: what is proved of the order is
    proved for lists of such events only. *)

Definition SortCompare {A} (comparefn : A → A → option Z) (x y : A) : Z :=
  default 0 (comparefn x y).

Fixpoint insert_by {A} (comparefn : A → A → option Z) (x : A) (l : list A) : list A :=
  match l with
  | [] => [x]
  | y :: l' =>
      if (SortCompare comparefn x y <=? 0)%Z then x :: y :: l'
      else y :: insert_by comparefn x l'
  end.

Definition sort {A} (comparefn : A → A → option Z) (l : list A) : list A :=
  foldr (insert_by comparefn) [] l.

(** [d1 - d2] on dates: NaN when either is invalid. *)
Definition Date_minus (d1 d2 : Js.Date) : option Z :=
  match d1, d2 with
  | Some t1, Some t2 => Some (t1 - t2)
  | _, _ => None
  end.

(* Sort by date (newest first) and severity *)
Definition compareFn (a b : DisasterEvent) : option Z :=
  let severityOrder : gmap string Z :=
    list_to_map [ ("high", 0); ("medium", 1); ("low", 2) ] in
  if Js.strict_ne (Js.get severityOrder (severity a)) (Js.get severityOrder (severity b))
  then Js.minus (Js.get severityOrder (severity a)) (Js.get severityOrder (severity b))
  else Date_minus (date b) (date a).

(** ** Text on a card

    The string methods and regular expressions of [createDisasterCard], on
    ASCII text. *)

Fixpoint toUpperCase (s : string) : string :=
  match s with
  | EmptyString => EmptyString
  | String c s' => String (Js.upper_ascii c) (toUpperCase s')
  end.

(** Some [>] occurs in [s]. *)
Fixpoint has_gt (s : string) : bool :=
  match s with
  | EmptyString => false
  | String c s' => bool_decide (c = ">"%char) || has_gt s'
  end.

(** [s.replace(/<[^>]*>/g, '')]: a [<] opens a match when a [>] follows
    somewhere, and the match runs to the first one; [inside] tells that a
    match is open. *)
Fixpoint strip_tags_from (inside : bool) (s : string) : string :=
  match s with
  | EmptyString => EmptyString
  | String c s' =>
      if inside
      then if bool_decide (c = ">"%char) then strip_tags_from false s'
           else strip_tags_from true s'
      else if bool_decide (c = "<"%char) && has_gt s' then strip_tags_from true s'
           else String c (strip_tags_from false s')
  end.

Definition stripTags (s : string) : string := strip_tags_from false s.

(** [s.replace(/\s+/g, r)]: every run of white space becomes one [r];
    [in_run] tells that the previous character was white space. *)
Fixpoint replace_spaces_from (r : ascii) (in_run : bool) (s : string) : string :=
  match s with
  | EmptyString => EmptyString
  | String c s' =>
      if Js.is_space c
      then if in_run then replace_spaces_from r true s'
           else String r (replace_spaces_from r true s')
      else String c (replace_spaces_from r false s')
  end.

Definition replaceSpaces (r : ascii) (s : string) : string :=
  replace_spaces_from r false s.

(** [s.substring(0, n)] *)
Fixpoint substring0 (n : nat) (s : string) : string :=
  match n, s with
  | S n', String c s' => String c (substring0 n' s')
  | _, _ => EmptyString
  end.

(** Modelled from the HTML standard, not from the source, which only calls
    the browser here: what [div.innerHTML] reads after
    [div.textContent = text] is the text as a fragment serialises a text
    node, with [&] written [&amp;], the no-break space U+00A0 (bytes 194,
    160) written [&nbsp;], [<] written [&lt;] and [>] written [&gt;]. *)
Definition entity (c : ascii) : string :=
  if bool_decide (c = "&"%char) then "&amp;"
  else if bool_decide (c = "<"%char) then "&lt;"
  else if bool_decide (c = ">"%char) then "&gt;"
  else String c EmptyString.

Fixpoint escape_text (s : string) : string :=
  match s with
  | EmptyString => EmptyString
  | String c s' =>
      match s' with
      | String d s'' =>
          if Ascii.eqb c "194"%char && Ascii.eqb d "160"%char
          then "&nbsp;" +:+ escape_text s''
          else entity c +:+ escape_text s'
      | EmptyString => entity c +:+ escape_text s'
      end
  end.

(* Escape HTML to prevent XSS.  Assigning [undefined] to [textContent]
   empties the element. *)
Definition escapeHtml (text : Js.value) : string :=
  match text with
  | Js.Undefined => ""
  | _ => escape_text (Js.ToString text)
  end.

(** The three badge texts of [severityLabels]. *)
Inductive badge := HIGH_PRIORITY | MEDIUM | ALERT.

(** The values [createDisasterCard] puts in its template. *)
Record card := {
  data_type : string;
  data_severity : string;
  background : Js.value;
  badge_label : Js.property badge;
  badge_type : string;
  news_title : string;
  news_location : string;
  news_time : string;
  news_description : string;
  href : string
}.

(* Truncate description *)
Definition cardDescription (description : string) : string :=
  let maxLength := 200%nat in
  let description :=
    Js.trim                                   (* .trim() *)
      (replaceSpaces " "                      (* Normalize whitespace *)
         (stripTags description)) in          (* Remove HTML tags *)
  if (maxLength <? String.length description)%nat
  then substring0 maxLength description +:+ "..."
  else description.

(** ** The host

    What the engine brings and the source only calls.  [Date_parse] is
    [Date.parse]: the time value read from a string, [None] when none is read
    (NaN).  [toLowerCase] is [String.prototype.toLowerCase] with the Unicode
    case mapping of the engine, which also sends characters outside ASCII to
    ASCII letters (the Kelvin sign U+212A to [k]). *)
Record Host := {
  Date_parse : string → option Z;
  toLowerCase : string → string
}.

Section Feed.

Variable host : Host.

(** [new Date(v)] for [v] a string or [undefined]. *)
Definition new_Date (v : option string) : Js.Date := v ≫= Date_parse host.

(* Check if cached data is still valid *)
Definition isCacheValid (cache : Cache) : Async bool :=
  match data cache, timestamp cache with
  | Some _, Some t =>
      if (t =? 0)%Z then resolve false
      else let* now := Date_now in resolve (now - t <? duration cache)%Z
  | _, _ => resolve false
  end.

(* Extract location from report *)
Definition extractLocation (fields : ReliefWeb.fields) : string :=
  if Js.truthy_opt (ReliefWeb.primary_country fields ≫= name)
  then default "" (ReliefWeb.primary_country fields ≫= name)
  else if Js.truthy_opt (first_name (ReliefWeb.country fields))
  then default "" (first_name (ReliefWeb.country fields))
  else if Js.truthy_opt (first_name (ReliefWeb.location fields))
  then default "" (first_name (ReliefWeb.location fields))
  else "India".

(* Extract disaster type *)
Definition extractDisasterType (fields : ReliefWeb.fields) : string :=
  if Js.truthy_opt (first_name (ReliefWeb.disaster_type fields))
  then default "" (first_name (ReliefWeb.disaster_type fields))
  else if Js.truthy_opt (first_name (ReliefWeb.theme fields))
  then default "" (first_name (ReliefWeb.theme fields))
  else "General Alert".

(* Calculate severity based on keywords and disaster type *)
Definition calculateSeverity (fields : ReliefWeb.fields) : string :=
  let title := toLowerCase host (Js.or_lit (ReliefWeb.title fields) "") in
  let body := toLowerCase host (Js.or_lit (ReliefWeb.body fields) "") in
  let content := title +:+ " " +:+ body in
  if Js.match_i ["urgent"; "emergency"; "critical"; "severe"; "major";
                 "catastrophic"; "deadly"] content
  then "high"
  else
    let disasterType := toLowerCase host (extractDisasterType fields) in
    if Js.match_i ["earthquake"; "cyclone"; "flood"; "tsunami"] disasterType
    then "high"
    else if Js.match_i ["storm"; "landslide"; "wildfire"] disasterType
    then "medium"
    else "low".

(* Parse ReliefWeb response *)
Definition parseReliefWebItem (item : ReliefWeb.item) : result DisasterEvent :=
  match ReliefWeb.fields_ item with
  | None => Throw (read_of_undefined "title")
  | Some fields =>
      Ok {|
        id := ReliefWeb.id item;
        title := Js.Str (Js.or_lit (ReliefWeb.title fields) "Disaster Report");
        description :=
          Js.or_lit
            (Js.or_opt (Js.trim <$> ReliefWeb.body fields)
                       (ReliefWeb.headline_ fields ≫= ReliefWeb.summary))
            "View full report for details";
        date :=
          new_Date (Js.or_opt (ReliefWeb.date fields ≫= ReliefWeb.created)
                              (ReliefWeb.date fields ≫= ReliefWeb.original));
        location := extractLocation fields;
        disasterType := Js.Str (extractDisasterType fields);
        severity := Js.Str (calculateSeverity fields);
        source := Js.or_lit (first_name (ReliefWeb.source fields)) "ReliefWeb";
        url := Js.or_lit (Js.or_opt (ReliefWeb.url fields) (ReliefWeb.url_alias fields)) "#";
        country := "India"
      |}
  end.

Definition parseReliefWebData (data : list ReliefWeb.item) : result (list DisasterEvent) :=
  map_r parseReliefWebItem data.

(* Sample data for demonstration (fallback) *)
Definition getSampleData : Async (list DisasterEvent) :=
  emit (console_log "Using sample data - all live APIs unavailable") ;;;
  let* now1 := Date_now in
  let* now2 := Date_now in
  let* now3 := Date_now in
  let* now4 := Date_now in
  resolve
    [ {| id := Js.Str "sample-1";
         title := Js.Str "Flood Alert in Kerala - Monsoon Impact";
         description := "Heavy rainfall has caused flooding in several districts of Kerala. Emergency services are responding to rescue operations. Volunteers needed for relief distribution.";
         date := Js.Date_of_number (now1 - 2 * 24 * 60 * 60 * 1000);
         location := "Kerala, India";
         disasterType := Js.Str "Flood";
         severity := Js.Str "high";
         source := "Sample Data";
         url := "#";
         country := "India" |};
      {| id := Js.Str "sample-2";
         title := Js.Str "Earthquake Monitoring - Himalayan Region";
         description := "Seismic activity detected in the Himalayan region. No major damage reported. Authorities monitoring the situation.";
         date := Js.Date_of_number (now2 - 5 * 24 * 60 * 60 * 1000);
         location := "Uttarakhand, India";
         disasterType := Js.Str "Earthquake";
         severity := Js.Str "medium";
         source := "Sample Data";
         url := "#";
         country := "India" |};
      {| id := Js.Str "sample-3";
         title := Js.Str "Heatwave Advisory - North India";
         description := "Extreme temperatures expected across North Indian states. Health advisory issued for vulnerable populations. Stay hydrated and avoid outdoor activities during peak hours.";
         date := Js.Date_of_number (now3 - 1 * 24 * 60 * 60 * 1000);
         location := "Delhi, Rajasthan, UP";
         disasterType := Js.Str "Extreme Temperature";
         severity := Js.Str "medium";
         source := "Sample Data";
         url := "#";
         country := "India" |};
      {| id := Js.Str "sample-4";
         title := Js.Str "Cyclone Watch - Bay of Bengal";
         description := "Low pressure system developing over Bay of Bengal. Coastal areas advised to stay alert. Fishermen warned not to venture into sea.";
         date := Js.Date_of_number (now4 - 3 * 24 * 60 * 60 * 1000);
         location := "Odisha, West Bengal";
         disasterType := Js.Str "Cyclone";
         severity := Js.Str "high";
         source := "Sample Data";
         url := "#";
         country := "India" |} ].

(* Fetch from GDACS API *)
Definition gdacsFeature (feature : Gdacs.feature) : result DisasterEvent :=
  match Gdacs.properties_ feature with
  | None => Throw (read_of_undefined "eventid")
  | Some properties =>
      Ok {|
        id := Gdacs.eventid properties;
        title := Js.Str (Js.or_lit (Gdacs.name properties) "Disaster Alert");
        description :=
          Js.or_lit (Gdacs.description properties)
            (Js.ToString (Js.of_option (Gdacs.eventtype properties)) +:+ " event in " +:+
             Js.ToString (Js.of_option (Gdacs.country properties)));
        date := new_Date (Gdacs.fromdate properties);
        location := Js.or_lit (Gdacs.country properties) "India";
        disasterType := mapGDACSEventType (Js.of_option (Gdacs.eventtype properties));
        severity := mapGDACSAlertLevel (Js.of_option (Gdacs.alertlevel properties));
        source := "GDACS";
        url := Js.or_lit (Gdacs.url properties) "#";
        country := "India"
      |}
  end.

Definition fetchFromGDACS : Async (list DisasterEvent) :=
  let* '(ok, _, body) := fetch gdacs_url gdacs_api in
  if negb ok then throw (Js.Error "GDACS API failed")
  else
    let* data := lift body in
    match Gdacs.features data with
    | None | Some [] => resolve []
    | Some features => lift (map_r gdacsFeature features)
    end.

(* Fetch from NASA EONET *)

(** [x >= n] and [x <= n] for [x] an array element that may be missing. *)
Definition ge (x : option Q) (n : Q) : bool :=
  match x with Some q => Qle_bool n q | None => false end.

Definition le (x : option Q) (n : Q) : bool :=
  match x with Some q => Qle_bool q n | None => false end.

(* Filter for events that might be in/near India *)
Definition inIndia (event : Eonet.event) : result bool :=
  match Eonet.geometry_ event with
  | None | Some [] => Ok false
  | Some (g :: _) =>
      match Eonet.coordinates g with
      | None => Throw (read_of_undefined "1")
      | Some coords =>
          (* India bounding box: lat 8-35, lon 68-97 *)
          Ok (ge (coords !! 1%nat) 8 && le (coords !! 1%nat) 35 &&
              ge (coords !! 0%nat) 68 && le (coords !! 0%nat) 97)
      end
  end.

(** [event.categories[0].title] *)
Definition first_category_title (event : Eonet.event) : result (option string) :=
  match Eonet.categories event with
  | None => Throw (read_of_undefined "0")
  | Some [] => Throw (read_of_undefined "title")
  | Some (c :: _) => Ok (Eonet.title c)
  end.

Definition eonetEvent (event : Eonet.event) : result DisasterEvent :=
  rbind (if Js.truthy_opt (Eonet.description event)
         then Ok (default "" (Eonet.description event))
         else rbind (first_category_title event)
                (λ t, Ok (Js.ToString (Js.of_option t) +:+ " event detected")))
  (λ description_,
  rbind (match Eonet.geometry_ event with
         | None => Throw (read_of_undefined "0")
         | Some [] => Throw (read_of_undefined "date")
         | Some (g :: _) => Ok (new_Date (Eonet.date g))
         end)
  (λ date_,
  rbind (first_category_title event)
  (λ disasterType_,
  rbind (if Js.truthy_opt (Eonet.link event)
         then Ok (default "" (Eonet.link event))
         else match Eonet.sources event with
              | None => Throw (read_of_undefined "0")
              | Some srcs => Ok (Js.or_lit (head srcs ≫= Eonet.url) "#")
              end)
  (λ url_,
  Ok {|
    id := Eonet.id event;
    title := Js.of_option (Eonet.title_ event);
    description := description_;
    date := date_;
    location := "India Region";
    disasterType := Js.of_option disasterType_;
    severity := Js.Str "medium";
    source := "NASA EONET";
    url := url_;
    country := "India"
  |})))).

Definition fetchFromEONET : Async (list DisasterEvent) :=
  let* '(ok, _, body) := fetch eonet_url eonet_api in
  if negb ok then throw (Js.Error "EONET API failed")
  else
    let* data := lift body in
    match Eonet.events data with
    | None | Some [] => resolve []
    | Some events =>
        let* indiaEvents := lift (filter_r inIndia events) in
        lift (map_r eonetEvent indiaEvents)
    end.

(* Alternative API sources *)
Definition fetchFromAlternativeSources : Async (list DisasterEvent) :=
  let* early :=
    try_catch
      ((* Try GDACS (Global Disaster Alert and Coordination System) *)
       let* gdacsData := fetchFromGDACS in
       resolve (if (0 <? length gdacsData)%nat then Some gdacsData else None))
      (λ error, emit (console_warn "GDACS failed:" error) ;;; resolve None) in
  match early with
  | Some gdacsData => resolve gdacsData
  | None =>
      let* early :=
        try_catch
          ((* Try EONET (NASA Earth Observatory Natural Event Tracker) *)
           let* eonetData := fetchFromEONET in
           resolve (if (0 <? length eonetData)%nat then Some eonetData else None))
          (λ error, emit (console_warn "EONET failed:" error) ;;; resolve None) in
      match early with
      | Some eonetData => resolve eonetData
      | None =>
          (* If all APIs fail, return sample data *)
          getSampleData
      end
  end.

(* Fetch from ReliefWeb API (Primary Source) - Updated approach *)
Definition fetchFromReliefWeb : Async (list DisasterEvent) :=
  try_catch
    (let* '(ok, status, body) := fetch reliefweb_url reliefweb_api in
     if negb ok
     then throw (Js.Error ("ReliefWeb API returned " +:+ pretty status))
     else
       let* json := lift body in
       match ReliefWeb.data json with
       | Some (item :: items) => lift (parseReliefWebData (item :: items))
       | _ => resolve []
       end)
    (λ error,
       emit (console_warn "ReliefWeb API failed, trying alternative sources..." error) ;;;
       (* Try alternative APIs *)
       fetchFromAlternativeSources).

(* Main fetch function with caching.  The method reads and writes
   [this.cache] and nothing else of the object; [primary] stands for
   [this.fetchFromReliefWeb()].  The result is [None] when the method
   returns [null]. *)
Definition fetchDisasterData_with (primary : Async (list DisasterEvent))
    (cache : Cache) : Async (option (list DisasterEvent) * Cache) :=
  let* valid := isCacheValid cache in
  (* Return cached data if valid *)
  if valid then
    emit (console_log "Using cached disaster data") ;;;
    resolve (data cache, cache)
  else
    emit ShowLoading ;;;
    try_catch
      ((* Fetch from ReliefWeb API *)
       let* data_ := primary in
       (* Cache the results *)
       let* now := Date_now in
       resolve (Some data_,
                {| data := Some data_; timestamp := Some now;
                   duration := duration cache |}))
      (λ error,
         emit (console_error "Error fetching disaster data:" error) ;;;
         emit (ShowError (Js.message error)) ;;;
         resolve (Some [], cache)).

Definition fetchDisasterData : Cache → Async (option (list DisasterEvent) * Cache) :=
  fetchDisasterData_with fetchFromReliefWeb.

(* Clear cache manually *)
Definition clearCache (cache : Cache) : Async Cache :=
  emit (console_log "Cache cleared") ;;;
  resolve {| data := None; timestamp := None; duration := duration cache |}.

(** [date.toLocaleDateString('en-IN', options)], which the host formats. *)
Variable toLocaleDateString : Js.Date → string.

(* Create disaster card HTML *)
Definition createDisasterCard (disaster : DisasterEvent) : result card :=
  let severityColors : gmap string string :=
    list_to_map [ ("high", "#e63946"); ("medium", "#ffaa00"); ("low", "#00b894") ] in
  let severityLabels : gmap string badge :=
    list_to_map [ ("high", HIGH_PRIORITY); ("medium", MEDIUM); ("low", ALERT) ] in
  let color :=
    Js.or (Js.of_property (Js.get severityColors (severity disaster)))
          (Js.Str "#00b894") in
  let label :=
    match Js.get severityLabels (severity disaster) with
    | Js.Missing => Js.Own ALERT
    | found => found
    end in
  let formattedDate := toLocaleDateString (date disaster) in
  let description_ := cardDescription (description disaster) in
  match disasterType disaster with
  | Js.Str type =>
      Ok {| data_type := replaceSpaces "-" (Js.toLowerCase type);
            data_severity := Js.ToString (severity disaster);
            background := color;
            badge_label := label;
            badge_type := toUpperCase type;
            news_title := escapeHtml (title disaster);
            news_location := escapeHtml (Js.Str (location disaster));
            news_time := formattedDate;
            news_description := escapeHtml (Js.Str description_);
            href := url disaster |}
  | Js.Undefined => Throw (read_of_undefined "toLowerCase")
  | _ => Throw (Js.TypeError "disaster.disasterType.toLowerCase is not a function")
  end.

(* Render all disaster cards.  [disasters.sort] sorts in place the array
   that [fetchDisasterData] returned, which is the array [this.cache.data]
   holds whenever it is not empty (see [fetchDisasterData_alias]); the cache
   is returned beside the outcome because it is left as it is when the
   cards cannot be made and the method rejects. *)
Definition render (cache : Cache) : World → io → result unit * Cache * io :=
  λ w s,
    match fetchDisasterData cache w s with
    | (Throw e, s') => (Throw e, cache, s')
    | (Ok (None, cache'), s') | (Ok (Some [], cache'), s') =>
        (Ok (), cache', {| clock := clock s'; trace := trace s' ++ [ShowEmpty] |})
    | (Ok (Some disasters, cache'), s') =>
        let sorted := sort compareFn disasters in
        let cache'' := {| data := Some sorted; timestamp := timestamp cache';
                          duration := duration cache' |} in
        (* Render cards *)
        match map_r createDisasterCard sorted with
        | Throw e => (Throw e, cache'', s')
        | Ok _ =>
            (* Add last updated timestamp *)
            (Ok (), cache'',
             {| clock := clock s';
                trace := trace s' ++ [ShowCards sorted; ShowLastUpdated (clock s')] |})
        end
    end.

End Feed.

(** * Properties *)

(** ** Text *)

(** [m] and [w] are equal up to the case of ASCII letters. *)
Definition eq_i (m w : string) : Prop := Js.toLowerCase m = Js.toLowerCase w.

(** [w] occurs in [s], in any case. *)
Definition occurs_i (w s : string) : Prop :=
  ∃ pre m post, s = pre +:+ m +:+ post ∧ eq_i m w.


Lemma lower_upper_ascii c : Js.lower_ascii (Js.upper_ascii c) = Js.lower_ascii c.
Proof. destruct c as [[] [] [] [] [] [] [] []]; reflexivity. Qed.

Lemma upper_lower_ascii c : Js.upper_ascii (Js.lower_ascii c) = Js.upper_ascii c.
Proof. destruct c as [[] [] [] [] [] [] [] []]; reflexivity. Qed.

Lemma upper_eq_lower_eq a b :
  Js.upper_ascii a = Js.upper_ascii b ↔ Js.lower_ascii a = Js.lower_ascii b.
Proof.
  split; intros H.
  - rewrite <- (lower_upper_ascii a), H. apply lower_upper_ascii.
  - rewrite <- (upper_lower_ascii a), H. apply upper_lower_ascii.
Qed.

Lemma append_cons x (a b : string) : String x a +:+ b = String x (a +:+ b).
Proof. reflexivity. Qed.



Lemma prefix_i_spec w s :
  Js.prefix_i w s = true ↔ ∃ m post, s = m +:+ post ∧ eq_i m w.
Proof.
  revert s. induction w as [|a w IH]; intros s; simpl.
  - split; [intros _; by exists "", s | done].
  - destruct s as [|b s].
    + split; [done | intros (m & post & Hs & Hm)].
      destruct m; [discriminate Hm | discriminate Hs].
    + rewrite andb_true_iff, bool_decide_eq_true, IH, upper_eq_lower_eq.
      split.
      * intros [Hab (m & post & -> & Hm)].
        exists (String b m), post. split; [done |].
        unfold eq_i in *. simpl. congruence.
      * intros (m & post & Hs & Hm). destruct m as [|c m]; [discriminate Hm |].
        unfold eq_i in *. simpl in *.
        injection Hs as -> ->. injection Hm as Hc Hm.
        split; [done | by exists m, post].
Qed.

Lemma search_i_spec w s : Js.search_i w s = true ↔ occurs_i w s.
Proof.
  induction s as [|b s IH].
  - simpl. rewrite orb_false_r, prefix_i_spec. split.
    + intros (m & post & Hs & Hm). by exists "", m, post.
    + intros (pre & m & post & Hs & Hm). destruct pre; [| discriminate Hs].
      by exists m, post.
  - cbn [Js.search_i]. rewrite orb_true_iff, IH, prefix_i_spec. split.
    + intros [(m & post & Hs & Hm) | (pre & m & post & Hs & Hm)].
      * by exists "", m, post.
      * exists (String b pre), m, post. split; [by rewrite Hs | done].
    + intros (pre & m & post & Hs & Hm). destruct pre as [|c pre].
      * left. by exists m, post.
      * right. injection Hs as -> ->. by exists pre, m, post.
Qed.



Lemma prefix_i_toLowerCase w s : Js.prefix_i w (Js.toLowerCase s) = Js.prefix_i w s.
Proof.
  revert s. induction w as [|a w IH]; intros [|b s]; simpl; try done.
  by rewrite upper_lower_ascii, IH.
Qed.

Lemma search_i_toLowerCase w s : Js.search_i w (Js.toLowerCase s) = Js.search_i w s.
Proof.
  induction s as [|b s IH].
  - done.
  - cbn [Js.search_i Js.toLowerCase].
    rewrite IH, <- (prefix_i_toLowerCase w (String b s)). done.
Qed.




(** ** ReliefWeb severity *)

Definition urgency_words : list string :=
  ["urgent"; "emergency"; "critical"; "severe"; "major"; "catastrophic"; "deadly"].

Definition high_types : list string := ["earthquake"; "cyclone"; "flood"; "tsunami"].

Definition medium_types : list string := ["storm"; "landslide"; "wildfire"].

(** The text the keywords are looked up in: title and body, each empty when
    the record has none and each lower-cased by the host, joined by a space;
    and the text the type words are looked up in: the lower-cased type. *)
Definition lowered_text (host : Host) (fields : ReliefWeb.fields) : string :=
  toLowerCase host (Js.or_lit (ReliefWeb.title fields) "") +:+ " " +:+
  toLowerCase host (Js.or_lit (ReliefWeb.body fields) "").

Definition lowered_type (host : Host) (fields : ReliefWeb.fields) : string :=
  toLowerCase host (extractDisasterType fields).

(** ASCII characters and texts: bytes below 128. *)
Definition ascii_char (c : ascii) : bool :=
  match c with Ascii _ _ _ _ _ _ _ b7 => negb b7 end.

Fixpoint ascii_text (s : string) : bool :=
  match s with
  | EmptyString => true
  | String c s' => ascii_char c && ascii_text s'
  end.

(** What every [toLowerCase] does to ASCII letters, whatever stands around
    them: an ASCII word that occurs in a text in some case still occurs in
    the lower-cased text. *)
Definition lowers_ascii_words (lower : string → string) : Prop :=
  ∀ w s, ascii_text w = true → occurs_i w s → occurs_i w (lower s).

(** Two lower-casings to run the code with: of ASCII letters only, and of
    ASCII letters and the Kelvin sign U+212A (bytes 226, 132, 170), whose
    lower case is [k]. *)
Fixpoint lower_text (s : string) : string :=
  match s with
  | EmptyString => EmptyString
  | String c s' =>
      match s' with
      | String c1 (String c2 s'') =>
          if Ascii.eqb c "226"%char && Ascii.eqb c1 "132"%char && Ascii.eqb c2 "170"%char
          then String "k"%char (lower_text s'')
          else String (Js.lower_ascii c) (lower_text s')
      | _ => String (Js.lower_ascii c) (lower_text s')
      end
  end.

Definition Kelvin_sign : string :=
  String "226"%char (String "132"%char (String "170"%char EmptyString)).

Definition ascii_host : Host :=
  {| Date_parse := λ _, None; toLowerCase := Js.toLowerCase |}.

Definition kelvin_host : Host :=
  {| Date_parse := λ _, None; toLowerCase := lower_text |}.

Lemma calculateSeverity_unfold host fields :
  calculateSeverity host fields =
    if Js.match_i urgency_words (lowered_text host fields) then "high"
    else if Js.match_i high_types (lowered_type host fields) then "high"
    else if Js.match_i medium_types (lowered_type host fields) then "medium"
    else "low".
Proof. reflexivity. Qed.


Lemma toLowerCase_lowers_ascii_words : lowers_ascii_words Js.toLowerCase.
Proof.
  intros w s _ H. apply search_i_spec. rewrite search_i_toLowerCase.
  by apply search_i_spec.
Qed.


















Definition report (t b : option string) (type : option string) : ReliefWeb.fields :=
  {| ReliefWeb.title := t; ReliefWeb.body := b; ReliefWeb.headline_ := None;
     ReliefWeb.date := None; ReliefWeb.primary_country := None;
     ReliefWeb.country := None; ReliefWeb.location := None;
     ReliefWeb.disaster_type := (λ n, [ {| name := Some n |} ]) <$> type;
     ReliefWeb.theme := None; ReliefWeb.source := None;
     ReliefWeb.url := None; ReliefWeb.url_alias := None |}.

Example severity_URGENT_overrides_low :
  calculateSeverity ascii_host
    (report (Some "URGENT: supply convoy") None (Some "Epidemic")) = "high"
  ∧ calculateSeverity ascii_host
      (report (Some "Supply convoy") None (Some "Epidemic")) = "low".
Proof. split; vm_compute; reflexivity. Qed.

Example severity_by_type :
  calculateSeverity ascii_host
    (report (Some "Situation report") (Some "no. 4") (Some "Flash Flood")) = "high"
  ∧ calculateSeverity ascii_host (report None None (Some "Severe Local Storm")) = "medium"
  ∧ calculateSeverity ascii_host (report None None None) = "low".
Proof. repeat split; vm_compute; reflexivity. Qed.

(** A keyword split between title and body is not a match: the two are
    joined by a space. *)
Example severity_no_match_across :
  calculateSeverity ascii_host (report (Some "ur") (Some "gent") None) = "low".
Proof. vm_compute. reflexivity. Qed.

(** The lower-casing decides: a type written with the Kelvin sign is an
    earthquake where the host lower-cases the sign to [k]. *)
Example severity_Kelvin_sign :
  let type := "EARTHQUA" +:+ Kelvin_sign +:+ "E" in
  lower_text type = "earthquake" ∧
  calculateSeverity kelvin_host (report None None (Some type)) = "high" ∧
  calculateSeverity ascii_host (report None None (Some type)) = "low".
Proof. repeat split; vm_compute; reflexivity. Qed.


(** ** GDACS codes *)

Definition event_type_codes : list string := ["EQ"; "TC"; "FL"; "DR"; "VO"; "WF"].

Definition alert_level_codes : list string := ["Red"; "Orange"; "Green"].

Lemma inherited_spec k : Js.inherited k = true ↔ k ∈ Js.Object_prototype.
Proof. unfold Js.inherited. apply bool_decide_eq_true. Qed.

Ltac each_member H :=
  repeat (apply elem_of_cons in H as [-> | H]; [vm_compute; reflexivity |]);
  by apply elem_of_nil in H.

Ltac not_a_key H :=
  repeat (rewrite lookup_insert_ne;
          [| intros <-; apply H; repeat constructor ]);
  apply lookup_empty.

Lemma mapGDACSEventType_table :
  map (λ c, mapGDACSEventType (Js.Str c)) event_type_codes =
  map Js.Str ["Earthquake"; "Tropical Cyclone"; "Flood"; "Drought"; "Volcano"; "Wildfire"].
Proof. vm_compute. reflexivity. Qed.

Lemma mapGDACSAlertLevel_table :
  map (λ c, mapGDACSAlertLevel (Js.Str c)) alert_level_codes =
  map Js.Str ["high"; "medium"; "low"].
Proof. vm_compute. reflexivity. Qed.

(** A code that is neither in the table nor the name of an inherited member
    passes through. *)
Lemma mapGDACSEventType_other (c : string) :
  c ∉ event_type_codes → c ∉ Js.Object_prototype →
  mapGDACSEventType (Js.Str c) = Js.Str c.
Proof.
  intros Hc Hp. unfold mapGDACSEventType, Js.get. cbn [Js.ToString list_to_map foldr].
  replace (_ !! c) with (@None string) by (symmetry; not_a_key Hc).
  replace (Js.inherited c) with false
    by (symmetry; apply not_true_iff_false; by rewrite inherited_spec).
  reflexivity.
Qed.

Lemma mapGDACSAlertLevel_other (c : string) :
  c ∉ alert_level_codes → c ∉ Js.Object_prototype →
  mapGDACSAlertLevel (Js.Str c) = Js.Str "low".
Proof.
  intros Hc Hp. unfold mapGDACSAlertLevel, Js.get. cbn [Js.ToString list_to_map foldr].
  replace (_ !! c) with (@None string) by (symmetry; not_a_key Hc).
  replace (Js.inherited c) with false
    by (symmetry; apply not_true_iff_false; by rewrite inherited_spec).
  reflexivity.
Qed.

Lemma mapGDACS_absent :
  mapGDACSEventType Js.Undefined = Js.Undefined ∧
  mapGDACSAlertLevel Js.Undefined = Js.Str "low".
Proof. split; vm_compute; reflexivity. Qed.

(** A code that names a member of [Object.prototype] yields that member. *)
Lemma mapGDACS_inherited (c : string) :
  c ∈ Js.Object_prototype →
  mapGDACSEventType (Js.Str c) = Js.Inherited c ∧
  mapGDACSAlertLevel (Js.Str c) = Js.Inherited c.
Proof. intros H. split; each_member H. Qed.

(** C6: at the event-type code and alert level "constructor" the tables
    yield the inherited member [Object.prototype.constructor], neither the
    code itself nor "low". *)
Theorem mapGDACS_constructor :
  mapGDACSEventType (Js.Str "constructor") = Js.Inherited "constructor" ∧
  mapGDACSEventType (Js.Str "constructor") ≠ Js.Str "constructor" ∧
  mapGDACSAlertLevel (Js.Str "constructor") = Js.Inherited "constructor" ∧
  mapGDACSAlertLevel (Js.Str "constructor") ≠ Js.Str "low".
Proof. repeat split; vm_compute; congruence. Qed.

Example mapGDACSEventType_XX : mapGDACSEventType (Js.Str "XX") = Js.Str "XX".
Proof. vm_compute. reflexivity. Qed.

Example mapGDACSAlertLevel_unknown : mapGDACSAlertLevel (Js.Str "Purple") = Js.Str "low".
Proof. vm_compute. reflexivity. Qed.

(** ** What a run of each adapter amounts to *)

Section Runs.

Variable host : Host.

(** The state after a request to [url] has been awaited. *)
Definition sent (url : string) (w : World) (s : io) : io :=
  {| clock := clock s + delay w url; trace := trace s ++ [Fetch url] |}.

Definition logged (e : effect) (s : io) : io :=
  {| clock := clock s; trace := trace s ++ [e] |}.

(** The outcome of each adapter, as a function of the world. *)
Definition gdacs_outcome (w : World) : result (list DisasterEvent) :=
  match gdacs_api w with
  | Rejected e => Throw e
  | Response false _ _ => Throw (Js.Error "GDACS API failed")
  | Response true _ body =>
      rbind body (λ json, map_r (gdacsFeature host) (default [] (Gdacs.features json)))
  end.

Definition eonet_events (w : World) : list Eonet.event :=
  match eonet_api w with
  | Response true _ (Ok json) => default [] (Eonet.events json)
  | _ => []
  end.

Definition eonet_outcome (w : World) : result (list DisasterEvent) :=
  match eonet_api w with
  | Rejected e => Throw e
  | Response false _ _ => Throw (Js.Error "EONET API failed")
  | Response true _ body =>
      rbind body (λ json,
        rbind (filter_r inIndia (default [] (Eonet.events json)))
          (map_r (eonetEvent host)))
  end.

(** The outcome of the [try] block of [fetchFromReliefWeb]. *)
Definition reliefweb_outcome (w : World) : result (list DisasterEvent) :=
  match reliefweb_api w with
  | Rejected e => Throw e
  | Response false status _ => Throw (Js.Error ("ReliefWeb API returned " +:+ pretty status))
  | Response true _ body =>
      rbind body (λ json, parseReliefWebData host (default [] (ReliefWeb.data json)))
  end.

Lemma fetchFromGDACS_run w s :
  fetchFromGDACS host w s = (gdacs_outcome w, sent gdacs_url w s).
Proof.
  unfold fetchFromGDACS, gdacs_outcome, await, fetch, sent.
  destruct (gdacs_api w) as [e | [] status [json | e]]; try reflexivity.
  simpl. unfold lift. destruct (Gdacs.features json) as [[|f fs]|]; reflexivity.
Qed.

Lemma fetchFromEONET_run w s :
  fetchFromEONET host w s = (eonet_outcome w, sent eonet_url w s).
Proof.
  unfold fetchFromEONET, eonet_outcome, await, fetch, sent.
  destruct (eonet_api w) as [e | [] status [json | e]]; try reflexivity.
  simpl. unfold lift. destruct (Eonet.events json) as [[|ev evs]|]; try reflexivity.
  simpl default. destruct (filter_r inIndia (ev :: evs)); reflexivity.
Qed.

(** The static sample dataset, for a reading [now] of the clock. *)
Definition day : Z := 24 * 60 * 60 * 1000.

Definition sample (n : string) (headline : string) (text : string) (days_ago : Z)
    (place : string) (type : string) (level : string) (now : Z) : DisasterEvent :=
  {| id := Js.Str ("sample-" +:+ n); title := Js.Str headline; description := text;
     date := Js.Date_of_number (now - days_ago * day); location := place;
     disasterType := Js.Str type; severity := Js.Str level;
     source := "Sample Data"; url := "#"; country := "India" |}.

Definition sample_dataset (now : Z) : list DisasterEvent :=
  [ sample "1" "Flood Alert in Kerala - Monsoon Impact"
      "Heavy rainfall has caused flooding in several districts of Kerala. Emergency services are responding to rescue operations. Volunteers needed for relief distribution."
      2 "Kerala, India" "Flood" "high" now;
    sample "2" "Earthquake Monitoring - Himalayan Region"
      "Seismic activity detected in the Himalayan region. No major damage reported. Authorities monitoring the situation."
      5 "Uttarakhand, India" "Earthquake" "medium" now;
    sample "3" "Heatwave Advisory - North India"
      "Extreme temperatures expected across North Indian states. Health advisory issued for vulnerable populations. Stay hydrated and avoid outdoor activities during peak hours."
      1 "Delhi, Rajasthan, UP" "Extreme Temperature" "medium" now;
    sample "4" "Cyclone Watch - Bay of Bengal"
      "Low pressure system developing over Bay of Bengal. Coastal areas advised to stay alert. Fishermen warned not to venture into sea."
      3 "Odisha, West Bengal" "Cyclone" "high" now ].

Definition sample_notice : effect :=
  console_log "Using sample data - all live APIs unavailable".

Lemma getSampleData_run w s :
  getSampleData w s = (Ok (sample_dataset (clock s)), logged sample_notice s).
Proof. reflexivity. Qed.

(** The non-empty list an adapter came back with, if it did. *)
Definition nonempty (r : result (list DisasterEvent)) : option (list DisasterEvent) :=
  match r with
  | Ok (e :: l) => Some (e :: l)
  | _ => None
  end.

(** The warning the orchestrator logs for an adapter that threw. *)
Definition warned (msg : string) (r : result (list DisasterEvent)) (s : io) : io :=
  match r with
  | Throw e => logged (console_warn msg e) s
  | Ok _ => s
  end.

Definition alternatives_run (w : World) (s : io) : result (list DisasterEvent) * io :=
  let s1 := sent gdacs_url w s in
  match nonempty (gdacs_outcome w) with
  | Some l => (Ok l, s1)
  | None =>
      let s2 := sent eonet_url w (warned "GDACS failed:" (gdacs_outcome w) s1) in
      match nonempty (eonet_outcome w) with
      | Some l => (Ok l, s2)
      | None =>
          let s3 := warned "EONET failed:" (eonet_outcome w) s2 in
          (Ok (sample_dataset (clock s3)), logged sample_notice s3)
      end
  end.

Lemma fetchFromAlternativeSources_run w s :
  fetchFromAlternativeSources host w s = alternatives_run w s.
Proof.
  unfold fetchFromAlternativeSources, alternatives_run, await, try_catch.
  rewrite fetchFromGDACS_run.
  destruct (gdacs_outcome w) as [[|g gs] | e]; cbn -[sample_dataset];
    try reflexivity;
    rewrite fetchFromEONET_run;
    destruct (eonet_outcome w) as [[|x xs] | e']; reflexivity.
Qed.

Definition primary_failed : string :=
  "ReliefWeb API failed, trying alternative sources...".

Definition orchestrator_run (w : World) (s : io) : result (list DisasterEvent) * io :=
  let s1 := sent reliefweb_url w s in
  match reliefweb_outcome w with
  | Ok l => (Ok l, s1)
  | Throw e => alternatives_run w (logged (console_warn primary_failed e) s1)
  end.

Lemma fetchFromReliefWeb_run w s :
  fetchFromReliefWeb host w s = orchestrator_run w s.
Proof.
  unfold fetchFromReliefWeb, orchestrator_run, reliefweb_outcome, try_catch, await, fetch.
  fold (sent reliefweb_url w s).
  destruct (reliefweb_api w) as [e | [] status [json | e]];
    cbn -[pretty parseReliefWebData];
    try apply fetchFromAlternativeSources_run.
  unfold lift.
  destruct (ReliefWeb.data json) as [[|i items]|]; try reflexivity.
  cbn [default Datatypes.id].
  destruct (parseReliefWebData host (i :: items)); [reflexivity |].
  apply fetchFromAlternativeSources_run.
Qed.

(** The requests a trace records, in order. *)
Definition requests (tr : list effect) : list string :=
  omap (λ e, match e with Fetch url => Some url | _ => None end) tr.

Lemma requests_app tr tr' : requests (tr ++ tr') = requests tr ++ requests tr'.
Proof. apply omap_app. Qed.

Lemma requests_sent url w s :
  requests (trace (sent url w s)) = requests (trace s) ++ [url].
Proof. unfold sent. simpl. by rewrite requests_app. Qed.

Lemma requests_logged e s :
  (∀ url, e ≠ Fetch url) → requests (trace (logged e s)) = requests (trace s).
Proof.
  intros He. unfold logged. simpl. rewrite requests_app.
  destruct e as [u| | | | | | | |]; simpl; try apply app_nil_r. by destruct (He u).
Qed.

Lemma requests_warned msg r s : requests (trace (warned msg r s)) = requests (trace s).
Proof. destruct r; [done |]. by apply requests_logged. Qed.

(** The list the orchestrator settles on, and the requests it makes. *)
Definition chosen (w : World) (now : Z) : list DisasterEvent :=
  match reliefweb_outcome w with
  | Ok l => l
  | Throw _ =>
      match nonempty (gdacs_outcome w) with
      | Some l => l
      | None =>
          match nonempty (eonet_outcome w) with
          | Some l => l
          | None => sample_dataset now
          end
      end
  end.

Definition attempted (w : World) : list string :=
  reliefweb_url ::
  match reliefweb_outcome w with
  | Ok _ => []
  | Throw _ =>
      gdacs_url ::
      match nonempty (gdacs_outcome w) with
      | Some _ => []
      | None => [eonet_url]
      end
  end.

Lemma orchestrator_run_spec w s :
  ∃ s', orchestrator_run w s = (Ok (chosen w (clock s')), s') ∧
        requests (trace s') = requests (trace s) ++ attempted w.
Proof.
  unfold orchestrator_run, alternatives_run, chosen, attempted.
  destruct (reliefweb_outcome w) as [l | e].
  { eexists. split; [reflexivity | apply requests_sent]. }
  destruct (nonempty (gdacs_outcome w)) as [g |].
  { eexists. split; [reflexivity |].
    rewrite requests_sent, requests_logged, requests_sent by done.
    by rewrite <- app_assoc. }
  destruct (nonempty (eonet_outcome w)) as [x |];
    [eexists | eexists (logged sample_notice _)]; (split; [reflexivity |]).
  - rewrite requests_sent, requests_warned, requests_sent, requests_logged,
      requests_sent by done.
    by rewrite <- !app_assoc.
  - rewrite requests_logged, requests_warned, requests_sent, requests_warned,
      requests_sent, requests_logged, requests_sent by done.
    by rewrite <- !app_assoc.
Qed.

(** The orchestrator never rejects. *)
Lemma fetchFromReliefWeb_resolves w s :
  ∃ s', fetchFromReliefWeb host w s = (Ok (chosen w (clock s')), s') ∧
        requests (trace s') = requests (trace s) ++ attempted w.
Proof. rewrite fetchFromReliefWeb_run. apply orchestrator_run_spec. Qed.

(** ** The cache *)

(** The test of [isCacheValid] at a reading [now] of the clock: [!x] holds
    of [null] and of the number 0. *)
Definition cache_valid (cache : Cache) (now : Z) : bool :=
  match data cache, timestamp cache with
  | Some _, Some t => negb (t =? 0)%Z && (now - t <? duration cache)%Z
  | _, _ => false
  end.

(** The two assignments that store a result. *)
Definition cache_put (events : list DisasterEvent) (now : Z) (cache : Cache) : Cache :=
  {| data := Some events; timestamp := Some now; duration := duration cache |}.

Definition cached_notice : effect := console_log "Using cached disaster data".

Definition refresh_failed (e : Js.error) (s : io) : io :=
  logged (ShowError (Js.message e))
    (logged (console_error "Error fetching disaster data:" e) s).

Lemma isCacheValid_run cache w s :
  isCacheValid cache w s = (Ok (cache_valid cache (clock s)), s).
Proof.
  unfold isCacheValid, cache_valid.
  destruct (data cache), (timestamp cache) as [t|]; try reflexivity.
  destruct (t =? 0)%Z; reflexivity.
Qed.

Lemma fetchDisasterData_with_run primary cache w s :
  fetchDisasterData_with primary cache w s =
    if cache_valid cache (clock s)
    then (Ok (data cache, cache), logged cached_notice s)
    else match primary w (logged ShowLoading s) with
         | (Ok events, s1) => (Ok (Some events, cache_put events (clock s1) cache), s1)
         | (Throw e, s1) => (Ok (Some [], cache), refresh_failed e s1)
         end.
Proof.
  unfold fetchDisasterData_with, await at 1. rewrite isCacheValid_run.
  destruct (cache_valid cache (clock s)); [reflexivity |].
  unfold await, try_catch, emit. simpl. fold (logged ShowLoading s).
  destruct (primary w (logged ShowLoading s)) as [[events | e] s1]; reflexivity.
Qed.

(** A list that [fetchDisasterData] returns and that is not empty is the
    array the cache holds afterwards. *)
Lemma fetchDisasterData_alias primary cache w s e events cache' s' :
  fetchDisasterData_with primary cache w s = (Ok (Some (e :: events), cache'), s') →
  data cache' = Some (e :: events).
Proof.
  rewrite fetchDisasterData_with_run.
  destruct (cache_valid cache (clock s)).
  - intros [= <- <- _]. done.
  - destruct (primary w (logged ShowLoading s)) as [[l | err] s1]; intros [= <- <- _]; done.
Qed.

End Runs.

(** ** Worlds to run the feed in *)

Module Fixtures.

(** A [Date.parse] that reads one ISO date. *)
Definition parse (s : string) : option Z :=
  if String.eqb s "2024-07-01T00:00:00Z" then Some 1719792000000 else None.

(** The host of the examples: that parser, and the lower-casing of ASCII
    letters and of the Kelvin sign. *)
Definition host : Host := {| Date_parse := parse; toLowerCase := lower_text |}.

Definition s0 : io := {| clock := 1720000000000; trace := [] |}.

Definition offline {A} : http A := Rejected (Js.TypeError "Failed to fetch").

Definition flood_in_assam : Gdacs.feature :=
  {| Gdacs.properties_ := Some
       {| Gdacs.eventid := Js.Number 1001; Gdacs.name := Some "Flood in Assam";
          Gdacs.description := None; Gdacs.eventtype := Some "FL";
          Gdacs.country := Some "India";
          Gdacs.fromdate := Some "2024-07-01T00:00:00Z";
          Gdacs.alertlevel := Some "Orange"; Gdacs.url := None |} |}.

Definition flood_event : DisasterEvent :=
  {| id := Js.Number 1001; title := Js.Str "Flood in Assam";
     description := "FL event in India"; date := Some 1719792000000;
     location := "India"; disasterType := Js.Str "Flood";
     severity := Js.Str "medium"; source := "GDACS"; url := "#";
     country := "India" |}.

Definition no_reports : http ReliefWeb.json :=
  Response true 200 (Ok {| ReliefWeb.data := Some [] |}).

Definition no_features : http Gdacs.json :=
  Response true 200 (Ok {| Gdacs.features := Some [] |}).

Definition no_events : http Eonet.json :=
  Response true 200 (Ok {| Eonet.events := Some [] |}).

(** ReliefWeb answers with no report while GDACS has an alert. *)
Definition primary_empty : World :=
  {| reliefweb_api := no_reports;
     gdacs_api := Response true 200 (Ok {| Gdacs.features := Some [flood_in_assam] |});
     eonet_api := no_events;
     delay := λ _, 120 |}.

(** Every source answers, none has anything. *)
Definition all_empty : World :=
  {| reliefweb_api := no_reports; gdacs_api := no_features;
     eonet_api := no_events; delay := λ _, 120 |}.

(** As [all_empty], but the request to ReliefWeb fails. *)
Definition primary_down : World :=
  {| reliefweb_api := offline; gdacs_api := no_features;
     eonet_api := no_events; delay := λ _, 120 |}.

(** No source can be reached. *)
Definition all_down : World :=
  {| reliefweb_api := offline; gdacs_api := offline;
     eonet_api := offline; delay := λ _, 120 |}.

End Fixtures.

(** ** The fallback chain *)

(** An adapter that threw or came back with the empty list. *)
Definition quiet (r : result (list DisasterEvent)) : Prop := nonempty r = None.

(** C1, as the code has it: ReliefWeb is always asked first.  When its
    attempt resolves, with a list that may be empty, that list is returned
    and no other source is asked.  When it throws, GDACS is asked, then
    EONET only if GDACS threw or was empty; the first non-empty list met is
    returned, the sample dataset if there is none.  No source after the one
    whose list is returned is asked. *)
Theorem fetchFromReliefWeb_priority (host : Host) (w : World) (s : io) :
  ∃ l s' asked,
    fetchFromReliefWeb host w s = (Ok l, s') ∧
    requests (trace s') = requests (trace s) ++ reliefweb_url :: asked ∧
    match reliefweb_outcome host w with
    | Ok primary => l = primary ∧ asked = []
    | Throw _ =>
        match nonempty (gdacs_outcome host w) with
        | Some gdacs => l = gdacs ∧ asked = [gdacs_url]
        | None =>
            asked = [gdacs_url; eonet_url] ∧
            l = match nonempty (eonet_outcome host w) with
                | Some eonet => eonet
                | None => sample_dataset (clock s')
                end
        end
    end.
Proof.
  destruct (fetchFromReliefWeb_resolves host w s) as (s' & Hrun & Hreq).
  exists (chosen host w (clock s')), s', (tail (attempted host w)).
  split; [exact Hrun |]. split; [exact Hreq |].
  unfold chosen, attempted.
  destruct (reliefweb_outcome host w); [done |].
  destruct (nonempty (gdacs_outcome host w)); [done |].
  destruct (nonempty (eonet_outcome host w)); done.
Qed.

(** Against C1 as stated: an empty list from ReliefWeb ends the run; GDACS,
    which has an alert, is not asked. *)
Lemma primary_empty_ends_chain :
  reliefweb_outcome Fixtures.host Fixtures.primary_empty = Ok [] ∧
  gdacs_outcome Fixtures.host Fixtures.primary_empty = Ok [Fixtures.flood_event] ∧
  fetchFromReliefWeb Fixtures.host Fixtures.primary_empty Fixtures.s0 =
    (Ok [], {| clock := 1720000000120; trace := [Fetch reliefweb_url] |}).
Proof. repeat split; vm_compute; reflexivity. Qed.

(** C2, as the code has it: when every adapter threw or was empty, the
    result is the sample dataset if ReliefWeb threw, and the empty list if
    ReliefWeb was empty.  The sample dataset has four events: a flood, an
    earthquake, a heat wave and a cyclone, dated 2, 5, 1 and 3 days before
    the reading of the clock. *)
Theorem sample_data_fallback (host : Host) (w : World) (s : io) :
  quiet (reliefweb_outcome host w) →
  quiet (gdacs_outcome host w) → quiet (eonet_outcome host w) →
  ∃ l s',
    fetchFromReliefWeb host w s = (Ok l, s') ∧
    match reliefweb_outcome host w with
    | Throw _ => l = sample_dataset (clock s')
    | Ok _ => l = []
    end ∧
    map disasterType (sample_dataset (clock s')) =
      map Js.Str ["Flood"; "Earthquake"; "Extreme Temperature"; "Cyclone"] ∧
    map date (sample_dataset (clock s')) =
      map (λ days, Js.Date_of_number (clock s' - days * day)) [2; 5; 1; 3].
Proof.
  unfold quiet. intros Hr Hg He.
  destruct (fetchFromReliefWeb_resolves host w s) as (s' & Hrun & _).
  exists (chosen host w (clock s')), s'. split; [exact Hrun |].
  split; [| split; reflexivity].
  unfold chosen. rewrite Hg, He.
  by destruct (reliefweb_outcome host w) as [[|e l]|].
Qed.

Lemma sample_data_fallback_witness :
  ∃ l s',
    fetchFromReliefWeb Fixtures.host Fixtures.all_down Fixtures.s0 = (Ok l, s') ∧
    match reliefweb_outcome Fixtures.host Fixtures.all_down with
    | Throw _ => l = sample_dataset (clock s')
    | Ok _ => l = []
    end ∧
    map disasterType (sample_dataset (clock s')) =
      map Js.Str ["Flood"; "Earthquake"; "Extreme Temperature"; "Cyclone"] ∧
    map date (sample_dataset (clock s')) =
      map (λ days, Js.Date_of_number (clock s' - days * day)) [2; 5; 1; 3].
Proof.
  apply (sample_data_fallback Fixtures.host Fixtures.all_down Fixtures.s0);
    reflexivity.
Defined.

(** Against C2 as stated: every adapter is empty, none throws, and the
    result is the empty list, not the sample dataset. *)
Lemma all_empty_is_not_sample :
  reliefweb_outcome Fixtures.host Fixtures.all_empty = Ok [] ∧
  gdacs_outcome Fixtures.host Fixtures.all_empty = Ok [] ∧
  eonet_outcome Fixtures.host Fixtures.all_empty = Ok [] ∧
  fetchFromReliefWeb Fixtures.host Fixtures.all_empty Fixtures.s0 =
    (Ok [], {| clock := 1720000000120; trace := [Fetch reliefweb_url] |}) ∧
  sample_dataset 1720000000120 ≠ [].
Proof. repeat split; try (vm_compute; reflexivity). discriminate. Qed.

(** ** Errors at the boundary *)

Definition as_list (r : result (list DisasterEvent)) : list DisasterEvent :=
  match r with Ok l => l | Throw _ => [] end.

Fixpoint first_nonempty (candidates : list (list DisasterEvent))
    (fallback : list DisasterEvent) : list DisasterEvent :=
  match candidates with
  | [] => fallback
  | [] :: rest => first_nonempty rest fallback
  | l :: _ => l
  end.

Lemma chosen_first_nonempty host w now :
  chosen host w now =
    match reliefweb_outcome host w with
    | Ok primary => primary
    | Throw _ =>
        first_nonempty [as_list (gdacs_outcome host w); as_list (eonet_outcome host w)]
          (sample_dataset now)
    end.
Proof.
  unfold chosen. destruct (reliefweb_outcome host w); [done |].
  destruct (gdacs_outcome host w) as [[|g gs] | eg];
    destruct (eonet_outcome host w) as [[|x xs] | ee]; reflexivity.
Qed.

(** C9, as the code has it: whatever the adapters do, [fetchDisasterData]
    resolves, and to a list, never to [null].  On a cache miss the list
    depends on GDACS and EONET only through [as_list], which turns an error
    into the empty list: an error of an alternate is treated as an empty
    result.  An error of ReliefWeb is caught too, and sends the orchestrator
    to the alternates; a list from ReliefWeb is returned as it is. *)
Theorem fetchDisasterData_resolves (host : Host) (cache : Cache)
    (w : World) (s : io) :
  ∃ l cache' s',
    fetchDisasterData host cache w s = (Ok (Some l, cache'), s') ∧
    (cache_valid cache (clock s) = true → data cache = Some l ∧ cache' = cache) ∧
    (cache_valid cache (clock s) = false →
       l = match reliefweb_outcome host w with
           | Ok primary => primary
           | Throw _ =>
               first_nonempty
                 [as_list (gdacs_outcome host w); as_list (eonet_outcome host w)]
                 (sample_dataset (clock s'))
           end).
Proof.
  unfold fetchDisasterData. rewrite fetchDisasterData_with_run.
  destruct (cache_valid cache (clock s)) eqn:Hvalid.
  - unfold cache_valid in Hvalid.
    destruct (data cache) as [d|] eqn:Hd; [| discriminate].
    exists d, cache, (logged cached_notice s). done.
  - destruct (fetchFromReliefWeb_resolves host w (logged ShowLoading s))
      as (s' & -> & _).
    eexists _, _, s'. split; [reflexivity |]. split; [done |].
    intros _. apply chosen_first_nonempty.
Qed.

(** Against C9 as stated: two worlds that differ only in ReliefWeb, which
    throws in one and is empty in the other; the first run falls back to
    the sample dataset, the second returns the empty list. *)
Lemma primary_error_is_not_empty :
  (∃ e, reliefweb_outcome Fixtures.host Fixtures.primary_down = Throw e) ∧
  reliefweb_outcome Fixtures.host Fixtures.all_empty = Ok [] ∧
  gdacs_outcome Fixtures.host Fixtures.primary_down =
    gdacs_outcome Fixtures.host Fixtures.all_empty ∧
  eonet_outcome Fixtures.host Fixtures.primary_down =
    eonet_outcome Fixtures.host Fixtures.all_empty ∧
  (∃ cache' s',
     fetchDisasterData Fixtures.host new_cache Fixtures.primary_down Fixtures.s0 =
       (Ok (Some (sample_dataset 1720000000360), cache'), s')) ∧
  (∃ cache' s',
     fetchDisasterData Fixtures.host new_cache Fixtures.all_empty Fixtures.s0 =
       (Ok (Some [], cache'), s')).
Proof.
  split; [eexists; vm_compute; reflexivity |].
  repeat split; try (vm_compute; reflexivity);
    do 2 eexists; vm_compute; reflexivity.
Qed.

(** ** The cache contract *)

(** C8: the cache is valid exactly when it holds data and a time stamp (a
    stamp counts as set when it is not 0, which a clock after the epoch
    never stamps) and less than the five minutes have passed since the
    stamp.  A fetch on a miss stores the list it obtained and stamps the
    clock; a fetch made while less than five minutes have passed since the
    stamp, in particular at once, returns the stored list without running
    the pipeline; from five minutes on the cache reports a miss. *)
Theorem cache_contract (cache : Cache) (w : World) (s : io) :
  duration cache = 5 * 60 * 1000 →
  (∃ b, isCacheValid cache w s = (Ok b, s) ∧
     (b = true ↔
      ∃ d t, data cache = Some d ∧ timestamp cache = Some t ∧ t ≠ 0 ∧
             clock s - t < 5 * 60 * 1000)) ∧
  (∀ primary events s1,
     cache_valid cache (clock s) = false →
     primary w (logged ShowLoading s) = (Ok events, s1) →
     fetchDisasterData_with primary cache w s =
       (Ok (Some events, cache_put events (clock s1) cache), s1)) ∧
  (∀ primary events t, 0 < t →
     let stored := cache_put events t cache in
     (clock s = t ∨ clock s - t < 5 * 60 * 1000 →
        fetchDisasterData_with primary stored w s =
          (Ok (Some events, stored), logged cached_notice s)) ∧
     ((5 * 60 * 1000 ≤ clock s - t)%Z →
        isCacheValid stored w s = (Ok false, s) ∧
        fetchDisasterData_with primary stored w s =
          match primary w (logged ShowLoading s) with
          | (Ok events', s1) =>
              (Ok (Some events', cache_put events' (clock s1) stored), s1)
          | (Throw e, s1) => (Ok (Some [], stored), refresh_failed e s1)
          end)).
Proof.
  intros Httl. split; [| split].
  - exists (cache_valid cache (clock s)). split; [apply isCacheValid_run |].
    unfold cache_valid. rewrite Httl.
    destruct (data cache) as [d|], (timestamp cache) as [t|];
      try (split; [discriminate | by intros (? & ? & ? & ? & _)]).
    rewrite andb_true_iff, negb_true_iff, Z.eqb_neq, Z.ltb_lt. split.
    + intros [? ?]. by exists d, t.
    + intros (? & ? & _ & [= <-] & ? & ?). done.
  - intros primary events s1 Hmiss Hrun.
    by rewrite fetchDisasterData_with_run, Hmiss, Hrun.
  - intros primary events t Ht stored. subst stored. split.
    + intros Hfresh. rewrite fetchDisasterData_with_run.
      replace (cache_valid _ _) with true; [done |].
      symmetry. unfold cache_valid, cache_put. simpl. rewrite Httl.
      apply andb_true_iff. split; [apply negb_true_iff; lia | lia].
    + intros Hstale.
      assert (Hmiss : cache_valid (cache_put events t cache) (clock s) = false).
      { unfold cache_valid, cache_put. simpl. rewrite Httl.
        apply andb_false_iff. right. lia. }
      split; [by rewrite isCacheValid_run, Hmiss |].
      by rewrite fetchDisasterData_with_run, Hmiss.
Qed.

(** A list stored at some time is returned by a fetch made at that time,
    with the network down; five minutes later the cache reports a miss. *)
Lemma cache_contract_witness :
  let stored := cache_put [Fixtures.flood_event] 1720000000000 new_cache in
  let later := {| clock := 1720000300000; trace := [] |} in
  fetchDisasterData Fixtures.host stored Fixtures.all_down Fixtures.s0 =
    (Ok (Some [Fixtures.flood_event], stored), logged cached_notice Fixtures.s0) ∧
  isCacheValid stored Fixtures.all_down later = (Ok false, later).
Proof.
  intros stored later. split.
  - destruct (cache_contract new_cache Fixtures.all_down Fixtures.s0 eq_refl)
      as (_ & _ & Hget).
    apply (Hget (fetchFromReliefWeb Fixtures.host) [Fixtures.flood_event]
             1720000000000); [reflexivity | by left].
  - destruct (cache_contract new_cache Fixtures.all_down later eq_refl)
      as (_ & _ & Hget).
    apply (Hget (fetchFromReliefWeb Fixtures.host) [Fixtures.flood_event]
             1720000000000); [reflexivity | simpl; lia].
Defined.

Example cache_hit_then_expiry :
  let stored := cache_put [Fixtures.flood_event] 1720000000000 new_cache in
  cache_valid stored 1720000000000 = true ∧
  cache_valid stored 1720000299999 = true ∧
  cache_valid stored 1720000300000 = false ∧
  cache_valid new_cache 1720000000000 = false.
Proof. repeat split. Qed.

(** ** A failed refresh *)

(** C10: when the fetch of [fetchDisasterData] throws (the [catch] branch is
    taken) the method returns the empty list and the cache it leaves is the
    cache it found; and whenever the cache it leaves differs from the one
    it found, the fetch had resolved and the cache holds what it resolved
    to, stamped with the clock read after it. *)
Theorem failed_refresh_keeps_cache (primary : Async (list DisasterEvent))
    (cache : Cache) (w : World) (s : io) :
  (∀ e s1,
     cache_valid cache (clock s) = false →
     primary w (logged ShowLoading s) = (Throw e, s1) →
     fetchDisasterData_with primary cache w s =
       (Ok (Some [], cache), refresh_failed e s1)) ∧
  (∀ r cache' s',
     fetchDisasterData_with primary cache w s = (Ok (r, cache'), s') →
     cache' ≠ cache →
     ∃ events,
       primary w (logged ShowLoading s) = (Ok events, s') ∧
       cache' = cache_put events (clock s') cache).
Proof.
  split.
  - intros e s1 Hmiss Hrun. by rewrite fetchDisasterData_with_run, Hmiss, Hrun.
  - intros r cache' s'. rewrite fetchDisasterData_with_run.
    destruct (cache_valid cache (clock s)).
    + intros [= _ <- _] Hne. done.
    + destruct (primary w (logged ShowLoading s)) as [[events | e] s1].
      * intros [= _ <- <-] _. by exists events.
      * intros [= _ <- _] Hne. done.
Qed.

(** A stale cache, and a refresh whose fetch is the GDACS adapter with the
    network down: the stale entry is still there afterwards. *)
Lemma failed_refresh_keeps_cache_witness :
  let stale := cache_put [Fixtures.flood_event] 1000 new_cache in
  fetchDisasterData_with (fetchFromGDACS Fixtures.host) stale Fixtures.all_down Fixtures.s0 =
    (Ok (Some [], stale),
     refresh_failed (Js.TypeError "Failed to fetch")
       (sent gdacs_url Fixtures.all_down (logged ShowLoading Fixtures.s0))).
Proof.
  intros stale.
  apply (proj1 (failed_refresh_keeps_cache (fetchFromGDACS Fixtures.host) stale
                  Fixtures.all_down Fixtures.s0)); reflexivity.
Defined.

(** In [fetchDisasterData] itself the fetch is [fetchFromReliefWeb], which
    catches every error: the [catch] branch is never taken there. *)
Lemma fetchDisasterData_refreshes host cache w s :
  cache_valid cache (clock s) = false →
  ∃ events s',
    fetchDisasterData host cache w s =
      (Ok (Some events, cache_put events (clock s') cache), s').
Proof.
  intros Hmiss. unfold fetchDisasterData. rewrite fetchDisasterData_with_run, Hmiss.
  destruct (fetchFromReliefWeb_resolves host w (logged ShowLoading s)) as (s' & -> & _).
  by eexists _, s'.
Qed.

(** ** The EONET filter *)

(** The first coordinate pair of the first geometry of [event] lies in the
    box of latitudes 8 to 35 and longitudes 68 to 97, bounds included. *)
Definition in_region (event : Eonet.event) : Prop :=
  ∃ g gs lon lat rest,
    Eonet.geometry_ event = Some (g :: gs) ∧
    Eonet.coordinates g = Some (lon :: lat :: rest) ∧
    (8 <= lat)%Q ∧ (lat <= 35)%Q ∧ (68 <= lon)%Q ∧ (lon <= 97)%Q.

Lemma inIndia_spec event b : inIndia event = Ok b → (b = true ↔ in_region event).
Proof.
  unfold inIndia, in_region. intros Hb. split.
  - intros ->.
    destruct (Eonet.geometry_ event) as [[|g gs]|]; try done.
    destruct (Eonet.coordinates g) as [coords|] eqn:Hc; [| done].
    injection Hb as Hb.
    destruct coords as [|lon [|lat rest]]; try done.
    cbn in Hb. rewrite !andb_true_iff, !Qle_bool_iff in Hb.
    destruct Hb as [[[? ?] ?] ?]. by exists g, gs, lon, lat, rest.
  - intros (g & gs & lon & lat & rest & Hg & Hc & ? & ? & ? & ?).
    rewrite Hg, Hc in Hb. injection Hb as <-. cbn.
    rewrite !andb_true_iff, !Qle_bool_iff. done.
Qed.

Lemma map_r_Forall2 {A B} (f : A → result B) l l' :
  map_r f l = Ok l' → Forall2 (λ x y, f x = Ok y) l l'.
Proof.
  revert l'. induction l as [|x l IH]; intros l'; simpl.
  - intros [= <-]. constructor.
  - destruct (f x) as [y|] eqn:Hx; [| done]. simpl.
    destruct (map_r f l) as [ys|]; [| done]. simpl.
    intros [= <-]. constructor; [done | by apply IH].
Qed.

Definition in_region_b (event : Eonet.event) : bool :=
  match Eonet.geometry_ event with
  | Some (g :: _) =>
      match Eonet.coordinates g with
      | Some (lon :: lat :: _) =>
          Qle_bool 8 lat && Qle_bool lat 35 && Qle_bool 68 lon && Qle_bool lon 97
      | _ => false
      end
  | _ => false
  end.

Lemma in_region_b_spec event : in_region_b event = true ↔ in_region event.
Proof.
  unfold in_region_b, in_region. split.
  - destruct (Eonet.geometry_ event) as [[|g gs]|]; try done.
    destruct (Eonet.coordinates g) as [[|lon [|lat rest]]|] eqn:Hc; try done.
    rewrite !andb_true_iff, !Qle_bool_iff.
    intros [[[? ?] ?] ?]. by exists g, gs, lon, lat, rest.
  - intros (g & gs & lon & lat & rest & -> & -> & ? & ? & ? & ?).
    rewrite !andb_true_iff, !Qle_bool_iff. done.
Qed.

#[global] Instance in_region_dec event : Decision (in_region event).
Proof.
  refine (cast_if (decide (in_region_b event = true)));
    by rewrite <- in_region_b_spec.
Defined.

(** The events the filter keeps are the events in the region, in order. *)
Lemma filter_r_inIndia events kept :
  filter_r inIndia events = Ok kept → kept = filter in_region events.
Proof.
  revert kept. induction events as [|ev evs IH]; intros kept; simpl.
  - by intros [= <-].
  - destruct (inIndia ev) as [b|] eqn:Hb; [| done]. simpl.
    destruct (filter_r inIndia evs) as [ys|]; [| done]. simpl.
    apply inIndia_spec in Hb. intros [= <-]. rewrite (IH ys eq_refl).
    destruct b.
    + rewrite filter_cons_True; [done | by apply Hb].
    + rewrite filter_cons_False; [done |]. intros Hin. by apply Hb in Hin.
Qed.

Lemma eonetEvent_fixed host event e :
  eonetEvent host event = Ok e →
  Eonet.id event = id e ∧ severity e = Js.Str "medium" ∧ location e = "India Region".
Proof.
  unfold eonetEvent, rbind.
  repeat match goal with
         | |- context [match ?x with _ => _ end] => destruct x; try done
         end.
  all: by intros [= <-].
Qed.

Definition eonet_at (n : string) (lon lat : Q) : Eonet.event :=
  {| Eonet.id := Js.Str n; Eonet.title_ := Some "Wildfire";
     Eonet.description := None; Eonet.link := None;
     Eonet.categories := Some [ {| Eonet.title := Some "Wildfires" |} ];
     Eonet.sources := Some [];
     Eonet.geometry_ := Some
       [ {| Eonet.date := Some "2024-07-01T00:00:00Z";
            Eonet.coordinates := Some [lon; lat] |} ] |}.

(** Two open events: one at lon=100, lat=20 and one at lon=80, lat=20. *)
Definition two_fires : World :=
  {| reliefweb_api := Fixtures.offline; gdacs_api := Fixtures.offline;
     eonet_api := Response true 200
       (Ok {| Eonet.events := Some [eonet_at "EONET_1" 100 20; eonet_at "EONET_2" 80 20] |});
     delay := λ _, 120 |}.

Definition second_fire : DisasterEvent :=
  {| id := Js.Str "EONET_2"; title := Js.Str "Wildfire";
     description := "Wildfires event detected"; date := Some 1719792000000;
     location := "India Region"; disasterType := Js.Str "Wildfires";
     severity := Js.Str "medium"; source := "NASA EONET"; url := "#";
     country := "India" |}.

Lemma eonet_outcome_Forall2 host w l :
  eonet_outcome host w = Ok l →
  Forall2 (λ event e, eonetEvent host event = Ok e) (filter in_region (eonet_events w)) l.
Proof.
  unfold eonet_outcome, eonet_events.
  destruct (eonet_api w) as [e | [] status [json | e]]; try done.
  simpl. destruct (filter_r inIndia _) as [kept|] eqn:Hkept; [| done].
  apply filter_r_inIndia in Hkept as ->. apply map_r_Forall2.
Qed.

(** C5: the list the EONET adapter returns is made, in order, of the
    normalised events of the payload whose first coordinate pair lies in the
    box (latitude 8 to 35, longitude 68 to 97), and of no other; each has
    severity 'medium' and location 'India Region'. *)
Theorem fetchFromEONET_region (host : Host) (w : World) (s s' : io)
    (l : list DisasterEvent) :
  fetchFromEONET host w s = (Ok l, s') →
  Forall2 (λ event e, eonetEvent host event = Ok e)
          (filter in_region (eonet_events w)) l ∧
  map id l = map Eonet.id (filter in_region (eonet_events w)) ∧
  Forall (λ e, severity e = Js.Str "medium" ∧ location e = "India Region") l.
Proof.
  rewrite fetchFromEONET_run. intros [= Hout _].
  apply eonet_outcome_Forall2 in Hout as Hall.
  split; [exact Hall |]. clear Hout.
  induction Hall as [| event e events l' He _ [IH1 IH2]]; [done |].
  apply eonetEvent_fixed in He as (Hid & Hsev & Hloc).
  split; [simpl; by rewrite Hid, IH1 | by constructor].
Qed.

Lemma fetchFromEONET_region_witness :
  Forall2 (λ event e, eonetEvent Fixtures.host event = Ok e)
          (filter in_region (eonet_events two_fires)) [second_fire] ∧
  map id [second_fire] = map Eonet.id (filter in_region (eonet_events two_fires)) ∧
  Forall (λ e, severity e = Js.Str "medium" ∧ location e = "India Region") [second_fire].
Proof.
  apply (fetchFromEONET_region Fixtures.host two_fires Fixtures.s0
           (sent eonet_url two_fires Fixtures.s0)).
  vm_compute. reflexivity.
Defined.

Example eonet_geofilter :
  ¬ in_region (eonet_at "EONET_1" 100 20) ∧ in_region (eonet_at "EONET_2" 80 20) ∧
  filter in_region (eonet_events two_fires) = [eonet_at "EONET_2" 80 20].
Proof.
  split; [| split].
  - rewrite <- in_region_b_spec. by vm_compute.
  - apply in_region_b_spec. by vm_compute.
  - by vm_compute.
Qed.

(** An event the filter keeps and that has no category makes the adapter
    throw; when every kept event has one, and a link or a list of sources,
    the adapter returns. *)
Definition complete (event : Eonet.event) : Prop :=
  (∃ c cs, Eonet.categories event = Some (c :: cs)) ∧
  (Js.truthy_opt (Eonet.link event) = true ∨ is_Some (Eonet.sources event)).

Lemma eonetEvent_complete host event :
  in_region event → complete event → ∃ e, eonetEvent host event = Ok e.
Proof.
  intros (g & gs & ? & ? & ? & Hg & _) [(c & cs & Hc) Hurl].
  unfold eonetEvent, first_category_title. rewrite Hg, Hc.
  destruct (Js.truthy_opt (Eonet.description event)); simpl;
    (destruct (Js.truthy_opt (Eonet.link event)); simpl; [by eexists |]);
    destruct Hurl as [? | [srcs ->]]; try done; by eexists.
Qed.

(** ** The invariants of the record *)

Definition severity_level (v : Js.value) : Prop :=
  v = Js.Str "high" ∨ v = Js.Str "medium" ∨ v = Js.Str "low".

Definition valid_date (d : Js.Date) : Prop := is_Some d.

Definition well_formed (e : DisasterEvent) : Prop :=
  severity_level (severity e) ∧ valid_date (date e).

(** The date field each normaliser reads. *)
Definition item_date (item : ReliefWeb.item) : option string :=
  fields ← ReliefWeb.fields_ item;
  Js.or_opt (ReliefWeb.date fields ≫= ReliefWeb.created)
            (ReliefWeb.date fields ≫= ReliefWeb.original).

Definition feature_date (feature : Gdacs.feature) : option string :=
  Gdacs.properties_ feature ≫= Gdacs.fromdate.

Definition event_date (event : Eonet.event) : option string :=
  gs ← Eonet.geometry_ event; g ← head gs; Eonet.date g.

(** The alert level of a feature does not name an inherited member. *)
Definition plain_level (feature : Gdacs.feature) : Prop :=
  ∀ properties c,
    Gdacs.properties_ feature = Some properties →
    Gdacs.alertlevel properties = Some c → c ∉ Js.Object_prototype.

Lemma calculateSeverity_level host fields :
  severity_level (Js.Str (calculateSeverity host fields)).
Proof.
  rewrite calculateSeverity_unfold. unfold severity_level.
  repeat match goal with |- context [if ?b then _ else _] => destruct b end; auto.
Qed.

Lemma parseReliefWebItem_fields host item e :
  parseReliefWebItem host item = Ok e →
  severity_level (severity e) ∧ date e = new_Date host (item_date item).
Proof.
  unfold parseReliefWebItem, item_date.
  destruct (ReliefWeb.fields_ item) as [fields|]; [| done].
  intros [= <-]. split; [apply calculateSeverity_level | done].
Qed.

Lemma mapGDACSAlertLevel_level (c : option string) :
  (∀ s, c = Some s → s ∉ Js.Object_prototype) →
  severity_level (mapGDACSAlertLevel (Js.of_option c)).
Proof.
  intros Hc. destruct c as [s|]; [| right; right; apply mapGDACS_absent].
  specialize (Hc s eq_refl). simpl.
  destruct (decide (s ∈ alert_level_codes)) as [Hin | Hout].
  - unfold alert_level_codes in Hin.
    repeat (apply elem_of_cons in Hin as [-> | Hin];
            [unfold severity_level; vm_compute; auto |]).
    by apply elem_of_nil in Hin.
  - right; right. by apply mapGDACSAlertLevel_other.
Qed.

Lemma gdacsFeature_fields host feature e :
  gdacsFeature host feature = Ok e →
  (plain_level feature → severity_level (severity e)) ∧
  date e = new_Date host (feature_date feature).
Proof.
  unfold gdacsFeature, feature_date, plain_level.
  destruct (Gdacs.properties_ feature) as [properties|]; [| done].
  intros [= <-]. split; [| done]. intros Hplain. simpl.
  apply mapGDACSAlertLevel_level. intros s Hs. by apply (Hplain properties).
Qed.

Lemma eonetEvent_fields host event e :
  eonetEvent host event = Ok e →
  severity_level (severity e) ∧ date e = new_Date host (event_date event).
Proof.
  intros He. split.
  - apply eonetEvent_fixed in He as (_ & -> & _). right; by left.
  - revert He. unfold eonetEvent, event_date, rbind.
    destruct (Eonet.geometry_ event) as [[|g gs]|];
      repeat match goal with
             | |- context [match ?x with _ => _ end] => destruct x; try done
             end.
    all: by intros [= <-].
Qed.

(** The readings of the clock at which the four sample dates are dates. *)
Definition clock_in_range (now : Z) : Prop :=
  (5 * day - Js.max_time ≤ now ≤ Js.max_time)%Z.

Lemma sample_dataset_well_formed now :
  Forall (λ e, severity_level (severity e)) (sample_dataset now) ∧
  (clock_in_range now → Forall (λ e, valid_date (date e)) (sample_dataset now)).
Proof.
  split.
  - unfold sample_dataset, severity_level.
    repeat first [apply Forall_nil_2 | apply Forall_cons_2]; cbn; auto.
  - unfold clock_in_range, day, Js.max_time. intros Hnow.
    unfold sample_dataset.
    repeat first [apply Forall_nil_2 | apply Forall_cons_2];
      unfold valid_date; cbn [date sample];
      unfold Js.Date_of_number, Js.TimeClip, Js.max_time, day;
      match goal with
      | |- is_Some (if (?a <=? ?b)%Z then _ else _) =>
          destruct (Z.leb_spec a b); [done | lia]
      end.
Qed.

(** The records of each payload. *)
Definition reliefweb_items (w : World) : list ReliefWeb.item :=
  match reliefweb_api w with
  | Response true _ (Ok json) => default [] (ReliefWeb.data json)
  | _ => []
  end.

Definition gdacs_features (w : World) : list Gdacs.feature :=
  match gdacs_api w with
  | Response true _ (Ok json) => default [] (Gdacs.features json)
  | _ => []
  end.

Lemma reliefweb_outcome_Forall2 host w l :
  reliefweb_outcome host w = Ok l →
  Forall2 (λ item e, parseReliefWebItem host item = Ok e) (reliefweb_items w) l.
Proof.
  unfold reliefweb_outcome, reliefweb_items.
  destruct (reliefweb_api w) as [e | [] status [json | e]]; try done.
  apply map_r_Forall2.
Qed.

Lemma gdacs_outcome_Forall2 host w l :
  gdacs_outcome host w = Ok l →
  Forall2 (λ feature e, gdacsFeature host feature = Ok e) (gdacs_features w) l.
Proof.
  unfold gdacs_outcome, gdacs_features.
  destruct (gdacs_api w) as [e | [] status [json | e]]; try done.
  apply map_r_Forall2.
Qed.

Lemma Forall_filter_keeps {A} (P Q : A → Prop) `{!∀ x, Decision (P x)} l :
  Forall Q l → Forall Q (filter P l).
Proof.
  rewrite !Forall_forall. intros Hall x Hx. apply Hall.
  by apply list_elem_of_filter in Hx as [_ ?].
Qed.

Lemma nonempty_Some r l : nonempty r = Some l → r = Ok l.
Proof. destruct r as [[|e es]|]; simpl; congruence. Qed.

(** Where an event of the pipeline comes from: a record of one of the three
    payloads, or the sample dataset built at a reading of the clock. *)
Inductive origin :=
| Report (item : ReliefWeb.item)
| Alert (feature : Gdacs.feature)
| Observation (event : Eonet.event)
| Sample (now : Z).

(** The record is one the world answers with (for EONET, one inside the
    region); the sample dataset is the one built at [now]. *)
Definition received (w : World) (now : Z) (o : origin) : Prop :=
  match o with
  | Report item => item ∈ reliefweb_items w
  | Alert feature => feature ∈ gdacs_features w
  | Observation event => event ∈ eonet_events w ∧ in_region event
  | Sample t => t = now
  end.

(** [e] is what the code makes of [o]. *)
Definition normalised (host : Host) (o : origin) (e : DisasterEvent) : Prop :=
  match o with
  | Report item => parseReliefWebItem host item = Ok e
  | Alert feature => gdacsFeature host feature = Ok e
  | Observation event => eonetEvent host event = Ok e
  | Sample now => e ∈ sample_dataset now
  end.

(** The alert level of a GDACS record does not name an inherited member;
    nothing is asked of the other origins. *)
Definition plain (o : origin) : Prop :=
  match o with Alert feature => plain_level feature | _ => True end.

(** The date of [e] is what [new Date] makes of the date field of the
    record; a sample date is a date when the clock is in range. *)
Definition dated_from (host : Host) (o : origin) (e : DisasterEvent) : Prop :=
  match o with
  | Report item => date e = new_Date host (item_date item)
  | Alert feature => date e = new_Date host (feature_date feature)
  | Observation event => date e = new_Date host (event_date event)
  | Sample now => clock_in_range now → valid_date (date e)
  end.

Lemma new_Date_valid host (field : option string) :
  valid_date (new_Date host field) ↔
  ∃ text, field = Some text ∧ is_Some (Date_parse host text).
Proof.
  unfold valid_date, new_Date. destruct field as [text|]; simpl.
  - split; [intros H; by exists text | by intros (? & [= <-] & H)].
  - split; [by intros [? ?] | by intros (? & ? & _)].
Qed.

Lemma Forall2_origin {A B} (R : A → B → Prop) xs l :
  Forall2 R xs l → Forall (λ y, ∃ x, x ∈ xs ∧ R x y) l.
Proof.
  induction 1 as [|x y xs l Hxy _ IH]; constructor.
  - exists x. split; [left | done].
  - eapply Forall_impl; [exact IH |]. intros y' (x' & Hin & Hx').
    exists x'. split; [by right | done].
Qed.

Lemma sample_dataset_origin now e :
  e ∈ sample_dataset now →
  severity_level (severity e) ∧ (clock_in_range now → valid_date (date e)).
Proof.
  intros Hin. destruct (sample_dataset_well_formed now) as [Hs Hd]. split.
  - by apply (proj1 (Forall_forall _ _) Hs).
  - intros Hnow. by apply (proj1 (Forall_forall _ _) (Hd Hnow)).
Qed.

Lemma normalised_fields host o e :
  normalised host o e →
  (plain o → severity_level (severity e)) ∧ dated_from host o e.
Proof.
  destruct o as [item | feature | event | now]; cbn [normalised plain dated_from].
  - intros He. apply parseReliefWebItem_fields in He as [Hsev Hdate]. by split.
  - apply gdacsFeature_fields.
  - intros He. apply eonetEvent_fields in He as [Hsev Hdate]. by split.
  - intros Hin. apply sample_dataset_origin in Hin as [Hsev Hdate]. by split.
Qed.

(** C4, as the code has it, event by event: every event the pipeline returns
    is normalised from a record of a payload or belongs to the sample
    dataset built at the final reading of the clock.  Its severity is among
    high, medium and low, unless it comes from a GDACS record whose alert
    level names an inherited member.  Its date is what [new Date] makes of
    the date field of its own record, which is a valid time stamp exactly
    when the field is there and the host reads a time from it: no date is
    substituted for one that is missing or unreadable.  A sample date is
    valid when the clock is in range.  The same holds of every event an
    adapter makes of a record, returned by the pipeline or not. *)
Theorem pipeline_events (host : Host) (w : World) (s s' : io)
    (l : list DisasterEvent) :
  fetchFromReliefWeb host w s = (Ok l, s') →
  Forall (λ e, ∃ o, received w (clock s') o ∧ normalised host o e ∧
                    (plain o → severity_level (severity e)) ∧
                    dated_from host o e) l ∧
  (∀ field, valid_date (new_Date host field) ↔
            ∃ text, field = Some text ∧ is_Some (Date_parse host text)) ∧
  (∀ o e, normalised host o e →
          (plain o → severity_level (severity e)) ∧ dated_from host o e).
Proof.
  intros Hrun. split; [| split; [apply new_Date_valid | apply normalised_fields]].
  destruct (fetchFromReliefWeb_resolves host w s) as (s'' & Hrun' & _).
  rewrite Hrun in Hrun'. injection Hrun' as -> <-.
  unfold chosen.
  destruct (reliefweb_outcome host w) as [primary | err] eqn:Hrw.
  { apply reliefweb_outcome_Forall2, Forall2_origin in Hrw.
    eapply Forall_impl; [exact Hrw |]. intros e (item & Hin & He).
    exists (Report item). split; [exact Hin |]. split; [exact He |].
    apply parseReliefWebItem_fields in He as [Hsev Hdate]. by split. }
  destruct (nonempty (gdacs_outcome host w)) as [gdacs|] eqn:Hg.
  { apply nonempty_Some, gdacs_outcome_Forall2, Forall2_origin in Hg.
    eapply Forall_impl; [exact Hg |]. intros e (feature & Hin & He).
    exists (Alert feature). split; [exact Hin |]. split; [exact He |].
    apply gdacsFeature_fields in He as [Hsev Hdate]. by split. }
  destruct (nonempty (eonet_outcome host w)) as [eonet|] eqn:Hn.
  { apply nonempty_Some, eonet_outcome_Forall2, Forall2_origin in Hn.
    eapply Forall_impl; [exact Hn |]. intros e (event & Hin & He).
    apply list_elem_of_filter in Hin as [Hregion Hin].
    exists (Observation event). split; [by split |]. split; [exact He |].
    apply eonetEvent_fields in He as [Hsev Hdate]. by split. }
  apply Forall_forall. intros e Hin. exists (Sample (clock s')).
  split; [reflexivity |]. split; [exact Hin |].
  apply sample_dataset_origin in Hin as [Hsev Hdate]. by split.
Qed.

Definition undated_report : World :=
  {| reliefweb_api := Response true 200
       (Ok {| ReliefWeb.data := Some
                [ {| ReliefWeb.id := Js.Number 4071;
                     ReliefWeb.fields_ :=
                       Some (report (Some "Assam floods: situation report")
                                    None (Some "Flood")) |} ] |});
     gdacs_api := Fixtures.no_features; eonet_api := Fixtures.no_events;
     delay := λ _, 120 |}.

(** GDACS alone has an alert, ReliefWeb cannot be reached. *)
Definition gdacs_only : World :=
  {| reliefweb_api := Fixtures.offline;
     gdacs_api := Response true 200
       (Ok {| Gdacs.features := Some [Fixtures.flood_in_assam] |});
     eonet_api := Fixtures.no_events; delay := λ _, 120 |}.

(** Two reports in one payload, the first with a date the host reads, the
    second with none. *)
Definition dated_flood_report : ReliefWeb.fields :=
  {| ReliefWeb.title := Some "Bihar floods: update";
     ReliefWeb.body := None; ReliefWeb.headline_ := None;
     ReliefWeb.date :=
       Some {| ReliefWeb.created := Some "2024-07-01T00:00:00Z";
               ReliefWeb.original := None |};
     ReliefWeb.primary_country := None;
     ReliefWeb.country := None; ReliefWeb.location := None;
     ReliefWeb.disaster_type := Some [ {| name := Some "Flood" |} ];
     ReliefWeb.theme := None; ReliefWeb.source := None;
     ReliefWeb.url := None; ReliefWeb.url_alias := None |}.

Definition two_reports : World :=
  {| reliefweb_api := Response true 200
       (Ok {| ReliefWeb.data := Some
                [ {| ReliefWeb.id := Js.Number 4070;
                     ReliefWeb.fields_ := Some dated_flood_report |};
                  {| ReliefWeb.id := Js.Number 4071;
                     ReliefWeb.fields_ :=
                       Some (report (Some "Assam floods: situation report")
                                    None (Some "Flood")) |} ] |});
     gdacs_api := Fixtures.no_features; eonet_api := Fixtures.no_events;
     delay := λ _, 120 |}.

Lemma pipeline_events_witness :
  ∃ l s',
    fetchFromReliefWeb Fixtures.host two_reports Fixtures.s0 = (Ok l, s') ∧
    date <$> l = [Some 1719792000000; None] ∧
    Forall (λ e, ∃ o, received two_reports (clock s') o ∧
                      normalised Fixtures.host o e ∧
                      (plain o → severity_level (severity e)) ∧
                      dated_from Fixtures.host o e) l.
Proof.
  do 2 eexists. split; [vm_compute; reflexivity |].
  split; [reflexivity |].
  refine (proj1 (pipeline_events Fixtures.host two_reports Fixtures.s0 _ _ _)).
  vm_compute. reflexivity.
Defined.

(** Against C4 as stated: a ReliefWeb report that carries no date is
    normalised to an event whose date is the invalid date. *)
Lemma undated_report_has_invalid_date :
  ∃ e s',
    fetchFromReliefWeb Fixtures.host undated_report Fixtures.s0 = (Ok [e], s') ∧
    severity e = Js.Str "high" ∧ date e = None ∧ ¬ well_formed e.
Proof.
  do 2 eexists. split; [vm_compute; reflexivity |].
  split; [reflexivity |]. split; [reflexivity |].
  intros [_ [t Ht]]. discriminate Ht.
Qed.

(** ** Properties of the ranking *)

Section Sorting.

Context {A : Type} (comparefn : A → A → option Z).

Lemma insert_by_perm x l : insert_by comparefn x l ≡ₚ x :: l.
Proof.
  induction l as [|y l IH]; simpl; [done |].
  destruct (SortCompare comparefn x y <=? 0)%Z; [done |].
  rewrite IH. apply Permutation_swap.
Qed.

Lemma sort_perm l : sort comparefn l ≡ₚ l.
Proof.
  induction l as [|x l IH]; simpl; [done |].
  by rewrite insert_by_perm, IH.
Qed.

(** The comparison function follows a total preorder of keys on the
    elements that satisfy [P]. *)
Context {K : Type} `{EqDecision K} (key : A → K) (kle : K → K → Prop).
Context (P : A → Prop).
Hypothesis kle_total : ∀ a b, kle a b ∨ kle b a.
Hypothesis kle_trans : ∀ a b c, kle a b → kle b c → kle a c.
Hypothesis kle_antisym : ∀ a b, kle a b → kle b a → a = b.
Hypothesis comparefn_key :
  ∀ x y, P x → P y → (SortCompare comparefn x y ≤ 0)%Z ↔ kle (key x) (key y).

Definition ordered (x y : A) : Prop := kle (key x) (key y).

Definition keyed (k : K) (l : list A) : list A := filter (λ x, key x = k) l.

Lemma kle_refl a : kle a a.
Proof. by destruct (kle_total a a). Qed.

Lemma insert_by_sorted x l :
  P x → Forall P l → StronglySorted ordered l →
  StronglySorted ordered (insert_by comparefn x l).
Proof.
  intros Hx. induction l as [|y l IH]; simpl; intros Hl Hs.
  - repeat constructor.
  - apply Forall_cons in Hl as [Hy Hl].
    apply StronglySorted_cons in Hs as [Hyl Hs].
    destruct (Z.leb_spec (SortCompare comparefn x y) 0) as [Hle | Hgt].
    + apply comparefn_key in Hle; [| done..].
      apply StronglySorted_cons. split; [| by apply StronglySorted_cons].
      constructor; [done |].
      eapply Forall_impl; [exact Hyl |]. intros z Hz. by eapply kle_trans.
    + apply StronglySorted_cons. split; [| by apply IH].
      rewrite insert_by_perm. constructor; [| done].
      destruct (kle_total (key x) (key y)) as [Hxy | Hyx]; [| done].
      apply comparefn_key in Hxy; [lia | done..].
Qed.

Lemma sort_sorted l : Forall P l → StronglySorted ordered (sort comparefn l).
Proof.
  induction l as [|x l IH]; simpl; intros Hl; [constructor |].
  apply Forall_cons in Hl as [Hx Hl].
  apply insert_by_sorted; [done | by rewrite sort_perm | by apply IH].
Qed.

Lemma insert_by_stable k x l :
  P x → Forall P l → keyed k (insert_by comparefn x l) = keyed k (x :: l).
Proof.
  intros Hx. unfold keyed. induction l as [|y l IH]; simpl; intros Hl; [done |].
  apply Forall_cons in Hl as [Hy Hl].
  destruct (Z.leb_spec (SortCompare comparefn x y) 0) as [Hle | Hgt]; [done |].
  assert (Hne : key x ≠ key y).
  { intros Heq. assert (Hxy : kle (key x) (key y)) by (rewrite Heq; apply kle_refl).
    apply comparefn_key in Hxy; [lia | done..]. }
  rewrite (filter_cons _ y), IH, !(filter_cons _ x), (filter_cons _ y) by done.
  destruct (decide (key y = k)), (decide (key x = k)); congruence.
Qed.

Lemma sort_stable k l : Forall P l → keyed k (sort comparefn l) = keyed k l.
Proof.
  induction l as [|x l IH]; simpl; intros Hl; [done |].
  apply Forall_cons in Hl as [Hx Hl].
  rewrite insert_by_stable; [| done | by rewrite sort_perm].
  unfold keyed in *. by rewrite !filter_cons, IH.
Qed.

(** Two lists in key order with the same elements in the same order under
    every key are the same list: a stable sort has one possible result. *)
Lemma stable_sort_unique l1 l2 :
  StronglySorted ordered l1 → StronglySorted ordered l2 →
  (∀ k, keyed k l1 = keyed k l2) → l1 = l2.
Proof.
  revert l2. induction l1 as [|x l1 IH]; intros l2 Hs1 Hs2 Hk.
  - destruct l2 as [|y l2]; [done |].
    specialize (Hk (key y)). unfold keyed in Hk.
    rewrite filter_cons_True in Hk by done. discriminate Hk.
  - destruct l2 as [|y l2].
    { specialize (Hk (key x)). unfold keyed in Hk.
      rewrite filter_cons_True in Hk by done. discriminate Hk. }
    apply StronglySorted_cons in Hs1 as [Hx1 Hs1].
    apply StronglySorted_cons in Hs2 as [Hy2 Hs2].
    assert (Hxy : key x = key y).
    { apply kle_antisym.
      - assert (Hin : y ∈ keyed (key y) (x :: l1)).
        { rewrite Hk. apply list_elem_of_filter. split; [done | left]. }
        apply list_elem_of_filter in Hin as [_ Hin].
        apply elem_of_cons in Hin as [-> | Hin]; [apply kle_refl |].
        rewrite Forall_forall in Hx1. by apply Hx1.
      - assert (Hin : x ∈ keyed (key x) (y :: l2)).
        { rewrite <- Hk. apply list_elem_of_filter. split; [done | left]. }
        apply list_elem_of_filter in Hin as [_ Hin].
        apply elem_of_cons in Hin as [-> | Hin]; [apply kle_refl |].
        rewrite Forall_forall in Hy2. by apply Hy2. }
    assert (Hhd := Hk (key x)). unfold keyed in Hhd.
    rewrite !filter_cons_True in Hhd by done. injection Hhd as <- Hhd.
    f_equal. apply IH; [done | done |].
    intros k. destruct (decide (key x = k)) as [<- | Hne]; [exact Hhd |].
    specialize (Hk k). unfold keyed in *.
    by rewrite !filter_cons_False in Hk.
Qed.

End Sorting.

(** The order of the ranking: high before medium before low, and within a
    severity the later date first. *)
Definition priority (v : Js.value) : Z :=
  if decide (v = Js.Str "high") then 0
  else if decide (v = Js.Str "medium") then 1
  else 2.

Definition time (e : DisasterEvent) : Z := default 0 (date e).

Definition rank_key (e : DisasterEvent) : Z * Z := (priority (severity e), time e).

Definition key_le (a b : Z * Z) : Prop := a.1 < b.1 ∨ (a.1 = b.1 ∧ (b.2 ≤ a.2)%Z).

Definition ranked_before (a b : DisasterEvent) : Prop :=
  priority (severity a) < priority (severity b) ∨
  (priority (severity a) = priority (severity b) ∧ (time b ≤ time a)%Z).

(** The events of [l] with the severity and date of key [k], in the order
    they have in [l]. *)
Definition with_key (k : Z * Z) (l : list DisasterEvent) : list DisasterEvent :=
  filter (λ e, rank_key e = k) l.

Lemma compareFn_well_formed a b :
  well_formed a → well_formed b →
  SortCompare compareFn a b =
    if decide (priority (severity a) = priority (severity b))
    then time b - time a
    else priority (severity a) - priority (severity b).
Proof.
  intros [Ha [ta Hta]] [Hb [tb Htb]].
  unfold SortCompare, compareFn, time. rewrite Hta, Htb.
  destruct Ha as [-> | [-> | ->]], Hb as [-> | [-> | ->]];
    vm_compute; reflexivity.
Qed.

Lemma compareFn_key a b :
  well_formed a → well_formed b →
  (SortCompare compareFn a b ≤ 0)%Z ↔ key_le (rank_key a) (rank_key b).
Proof.
  intros Ha Hb. rewrite compareFn_well_formed by done.
  unfold key_le, rank_key. simpl.
  destruct (decide (priority (severity a) = priority (severity b))); lia.
Qed.

Lemma key_le_total a b : key_le a b ∨ key_le b a.
Proof. unfold key_le. lia. Qed.

Lemma key_le_trans a b c : key_le a b → key_le b c → key_le a c.
Proof. unfold key_le. lia. Qed.

Lemma key_le_antisym a b : key_le a b → key_le b a → a = b.
Proof. destruct a, b. unfold key_le. simpl. intros ? ?. f_equal; lia. Qed.

(** The order C7 asks for, in its own words: high before medium before low
    and, within a severity, the later date first.  An invalid date is NaN,
    which is neither later nor earlier than any date. *)
Definition later_or_same (a b : DisasterEvent) : Prop :=
  match date a, date b with
  | Some ta, Some tb => (tb ≤ ta)%Z
  | _, _ => False
  end.

Definition claimed_before (a b : DisasterEvent) : Prop :=
  priority (severity a) < priority (severity b) ∨
  (priority (severity a) = priority (severity b) ∧ later_or_same a b).

Lemma claimed_before_ranked a b :
  well_formed a → well_formed b → (claimed_before a b ↔ ranked_before a b).
Proof.
  intros [_ [ta Ha]] [_ [tb Hb]].
  unfold claimed_before, ranked_before, later_or_same, time.
  by rewrite Ha, Hb.
Qed.

Lemma StronglySorted_claimed l :
  Forall well_formed l → StronglySorted ranked_before l →
  StronglySorted claimed_before l.
Proof.
  intros Hl Hs. induction Hs as [|a l Hs IH Hall]; [constructor |].
  apply Forall_cons in Hl as [Ha Hl]. constructor; [by apply IH |].
  rewrite Forall_forall in Hall, Hl |- *. intros b Hb.
  apply claimed_before_ranked; [done | by apply Hl | by apply Hall].
Qed.

(** What [render] ranks is what it caches and shows: the array it was
    handed, sorted in place. *)
Lemma render_ranks host format cache w s l cache' s' :
  l ≠ [] →
  fetchDisasterData host cache w s = (Ok (Some l, cache'), s') →
  data (render host format cache w s).1.2 = Some (sort compareFn l).
Proof.
  intros Hl Hfetch. unfold render. rewrite Hfetch.
  destruct l as [|e l]; [done |]. cbv beta iota zeta.
  by destruct (map_r _ _).
Qed.

(** C7, as the code has it: on events whose severity is high, medium or low
    and whose date is valid, the ranking [render] applies before display is
    a rearrangement of the list in which high comes before medium before
    low and, within a severity, later dates come first; events of equal
    severity and date keep the order they had; and it is the only
    arrangement with these properties.  The list [low/T2, high/T1, high/T3]
    with T1 before T3 is ranked [high/T3, high/T1, low/T2].  The ranked
    list is the one [render] leaves in the cache and shows. *)
Theorem ranking (l : list DisasterEvent) :
  Forall well_formed l →
  sort compareFn l ≡ₚ l ∧
  StronglySorted ranked_before (sort compareFn l) ∧
  (∀ k, with_key k (sort compareFn l) = with_key k l) ∧
  (∀ l', StronglySorted ranked_before l' → (∀ k, with_key k l' = with_key k l) →
         l' = sort compareFn l) ∧
  (∀ e1 e2 e3 T1 T2 T3,
     severity e1 = Js.Str "low" → date e1 = Some T2 →
     severity e2 = Js.Str "high" → date e2 = Some T1 →
     severity e3 = Js.Str "high" → date e3 = Some T3 →
     T1 < T3 →
     sort compareFn [e1; e2; e3] = [e3; e2; e1]) ∧
  StronglySorted claimed_before (sort compareFn l) ∧
  (∀ host format cache w s cache' s',
     l ≠ [] →
     fetchDisasterData host cache w s = (Ok (Some l, cache'), s') →
     data (render host format cache w s).1.2 = Some (sort compareFn l)).
Proof.
  intros Hl.
  pose proof (sort_sorted compareFn rank_key key_le well_formed key_le_total
                key_le_trans compareFn_key l Hl) as Hsorted.
  pose proof (sort_stable compareFn rank_key key_le well_formed key_le_total
                compareFn_key) as Hstable.
  split; [apply sort_perm |]. split; [exact Hsorted |].
  split; [intros k; by apply Hstable |]. split; [| split; [| split]].
  - intros l' Hs' Hk.
    apply (stable_sort_unique rank_key key_le key_le_total key_le_antisym);
      [exact Hs' | exact Hsorted |].
    intros k. rewrite (Hstable k l Hl). apply Hk.
  - intros e1 e2 e3 T1 T2 T3 Hs1 Hd1 Hs2 Hd2 Hs3 Hd3 Hlt.
    assert (H1 : well_formed e1) by (split; [rewrite Hs1; right; by right | by eexists]).
    assert (H2 : well_formed e2) by (split; [rewrite Hs2; by left | by eexists]).
    assert (H3 : well_formed e3) by (split; [rewrite Hs3; by left | by eexists]).
    assert (H23 : (SortCompare compareFn e2 e3 <=? 0)%Z = false).
    { rewrite compareFn_well_formed by done. unfold time.
      rewrite Hs2, Hs3, Hd2, Hd3. simpl. lia. }
    assert (H13 : (SortCompare compareFn e1 e3 <=? 0)%Z = false).
    { rewrite compareFn_well_formed by done. by rewrite Hs1, Hs3. }
    assert (H12 : (SortCompare compareFn e1 e2 <=? 0)%Z = false).
    { rewrite compareFn_well_formed by done. by rewrite Hs1, Hs2. }
    unfold sort. cbn [foldr insert_by]. rewrite H23.
    cbn [insert_by]. by rewrite H13, H12.
  - apply StronglySorted_claimed; [| exact Hsorted]. by rewrite sort_perm.
  - intros host format cache w s cache' s'. apply render_ranks.
Qed.

Definition dated_event (level : string) (t : Z) : DisasterEvent :=
  {| id := Js.Undefined; title := Js.Str "Alert"; description := "";
     date := Some t; location := "India"; disasterType := Js.Str "Flood";
     severity := Js.Str level; source := "GDACS"; url := "#"; country := "India" |}.

Lemma ranking_witness :
  sort compareFn [dated_event "low" 2000; dated_event "high" 1000; dated_event "high" 3000] =
    [dated_event "high" 3000; dated_event "high" 1000; dated_event "low" 2000].
Proof.
  assert (Hwf : Forall well_formed
            [dated_event "low" 2000; dated_event "high" 1000; dated_event "high" 3000]).
  { repeat constructor; by eexists. }
  destruct (ranking _ Hwf) as (_ & _ & _ & _ & Hexample & _).
  apply (Hexample _ _ _ 1000 2000 3000); reflexivity.
Defined.

(** Outside the invariants the comparison function has no number to give:
    with an invalid date on either side of a tie in severity it is NaN. *)
Lemma compareFn_invalid_date a b :
  severity a = severity b → date a = None ∨ date b = None → compareFn a b = None.
Proof.
  intros Hs Hd. unfold compareFn. rewrite Hs.
  replace (Js.strict_ne _ _) with false.
  - destruct Hd as [-> | ->]; [by destruct (date b) | done].
  - symmetry. destruct (Js.get _ (severity b)); simpl;
      [by rewrite Z.eqb_refl | by rewrite String.eqb_refl | done].
Qed.

(** Against C7 as stated: the pipeline returns two floods of severity high,
    the second without a date.  The comparison function has no number for
    the pair, and no arrangement of the two is in the order of the claim,
    whichever one the engine returns. *)
Lemma undated_events_have_no_ranking :
  ∃ x y s',
    fetchFromReliefWeb Fixtures.host two_reports Fixtures.s0 = (Ok [x; y], s') ∧
    severity x = Js.Str "high" ∧ severity y = Js.Str "high" ∧
    date x = Some 1719792000000 ∧ date y = None ∧
    compareFn x y = None ∧ compareFn y x = None ∧
    Forall (λ l', ¬ StronglySorted claimed_before l') (permutations [x; y]).
Proof.
  do 3 eexists. split; [vm_compute; reflexivity |].
  do 4 (split; [reflexivity |]).
  do 2 (split; [vm_compute; reflexivity |]).
  apply Forall_forall. intros l' Hl' Hs.
  apply permutations_Permutation, Permutation_length_2_inv in Hl' as [-> | ->];
    apply StronglySorted_inv in Hs as [_ Hall];
    apply Forall_inv in Hall as [Hlt | [_ Hd]];
    solve [by vm_compute in Hlt | exact Hd].
Qed.


(** * Further properties of the feed *)

(** ** Fields of a ReliefWeb report *)

Lemma truthy_opt_Some o : Js.truthy_opt o = true ↔ ∃ s, o = Some s ∧ s ≠ "".
Proof.
  unfold Js.truthy_opt. destruct o as [s|]; simpl.
  - destruct (String.eqb_spec s ""); split; try done.
    + intros (? & [= <-] & ?). done.
    + intros _. by exists s.
  - split; [done | by intros (? & ? & _)].
Qed.

Lemma or_lit_nonempty o d : d ≠ "" → Js.or_lit o d ≠ "".
Proof.
  intros Hd. destruct o as [s|]; simpl; [| done].
  by destruct (String.eqb_spec s "").
Qed.

Lemma or_lit_truthy o d s : o = Some s → s ≠ "" → Js.or_lit o d = s.
Proof. intros -> Hs. simpl. by destruct (String.eqb_spec s ""). Qed.

Lemma or_lit_falsy o d : Js.truthy_opt o = false → Js.or_lit o d = d.
Proof.
  unfold Js.truthy_opt. destruct o as [s|]; simpl; [| done].
  by destruct (String.eqb_spec s "").
Qed.

Lemma truthy_default o : Js.truthy_opt o = true → default "" o ≠ "".
Proof. intros (s & -> & Hs)%truthy_opt_Some. done. Qed.

Lemma extractLocation_nonempty fields : extractLocation fields ≠ "".
Proof.
  unfold extractLocation.
  repeat match goal with
         | |- context [if Js.truthy_opt ?o then _ else _] =>
             let Ho := fresh in
             destruct (Js.truthy_opt o) eqn:Ho; [by apply truthy_default |]
         end.
  done.
Qed.



(** ** When the normalisers return *)

Lemma map_r_returns {A B} (f : A → result B) l :
  (∃ l', map_r f l = Ok l') ↔ Forall (λ x, ∃ y, f x = Ok y) l.
Proof.
  induction l as [|x l IH]; simpl.
  - split; [constructor | by eexists].
  - rewrite Forall_cons, <- IH. split.
    + intros [l' Hl']. destruct (f x) as [y|]; [| done]. simpl in Hl'.
      destruct (map_r f l) as [ys|]; [| done]. split; by eexists.
    + intros [[y ->] [ys ->]]. by eexists.
Qed.

Lemma Forall2_map_eq {A B C} (R : A → B → Prop) (f : A → C) (g : B → C) l l' :
  Forall2 R l l' → (∀ x y, R x y → g y = f x) → map g l' = map f l.
Proof. induction 1; intros HR; simpl; [done |]. f_equal; auto. Qed.

(** X3: [parseReliefWebData] returns exactly when every item has its
    [fields]; it then gives one event per item, in order and with the item's
    id, each with a title that is a non-empty string. *)
Theorem parseReliefWebData_returns (host : Host)
    (data : list ReliefWeb.item) :
  ((∃ l, parseReliefWebData host data = Ok l) ↔
   Forall (λ item, is_Some (ReliefWeb.fields_ item)) data) ∧
  (∀ l, parseReliefWebData host data = Ok l →
     map id l = map ReliefWeb.id data ∧
     Forall (λ e, ∃ t, title e = Js.Str t ∧ t ≠ "") l).
Proof.
  unfold parseReliefWebData. split.
  - rewrite map_r_returns. apply Forall_iff. intros item.
    unfold parseReliefWebItem.
    destruct (ReliefWeb.fields_ item).
    + split; intros _; by eexists.
    + split; by intros [? ?].
  - intros l Hl. apply map_r_Forall2 in Hl. split.
    + eapply Forall2_map_eq; [exact Hl |]. intros item e. unfold parseReliefWebItem.
      destruct (ReliefWeb.fields_ item); [| done]. by intros [= <-].
    + eapply Forall2_Forall_r; [exact Hl |]. apply Forall_true.
      intros item e. unfold parseReliefWebItem.
      destruct (ReliefWeb.fields_ item); [| done]. intros [= <-].
      eexists. split; [reflexivity |]. by apply or_lit_nonempty.
Qed.

Example parseReliefWebData_missing_fields :
  parseReliefWebData Fixtures.host
    [ {| ReliefWeb.id := Js.Number 1; ReliefWeb.fields_ := Some (report None None None) |};
      {| ReliefWeb.id := Js.Number 2; ReliefWeb.fields_ := None |} ] =
    Throw (read_of_undefined "title").
Proof. reflexivity. Qed.

(** ** What every event can be shown with *)

(** The text fields a card shows are there. *)
Definition displayable (e : DisasterEvent) : Prop :=
  country e = "India" ∧ location e ≠ "" ∧ description e ≠ "" ∧
  source e ≠ "" ∧ url e ≠ "".

Lemma append_nonempty_r (a b : string) : b ≠ "" → a +:+ b ≠ "".
Proof. destruct a; [done |]. by rewrite append_cons. Qed.

Lemma append_nonempty_l (a b : string) : a ≠ "" → a +:+ b ≠ "".
Proof. destruct a; [done |]. by rewrite append_cons. Qed.

Lemma parseReliefWebItem_displayable host item e :
  parseReliefWebItem host item = Ok e → displayable e.
Proof.
  unfold parseReliefWebItem. destruct (ReliefWeb.fields_ item) as [fields|]; [| done].
  intros [= <-]. unfold displayable. simpl.
  split; [done |]. split; [apply extractLocation_nonempty |].
  repeat split; by apply or_lit_nonempty.
Qed.

Lemma gdacsFeature_displayable host feature e :
  gdacsFeature host feature = Ok e → displayable e.
Proof.
  unfold gdacsFeature. destruct (Gdacs.properties_ feature) as [properties|]; [| done].
  intros [= <-]. unfold displayable. simpl.
  split; [done |]. split; [by apply or_lit_nonempty |].
  split; [| split; [done | by apply or_lit_nonempty]].
  apply or_lit_nonempty, append_nonempty_r, append_nonempty_l. done.
Qed.

Lemma eonetEvent_displayable host event e :
  eonetEvent host event = Ok e → displayable e.
Proof.
  unfold eonetEvent, rbind, displayable.
  destruct (Js.truthy_opt (Eonet.description event)) eqn:Hd;
    [| destruct (first_category_title event) as [t|]; [| done]];
    (destruct (Eonet.geometry_ event) as [[|g gs]|]; try done);
    (destruct (first_category_title event) as [t'|]; try done);
    (destruct (Js.truthy_opt (Eonet.link event)) eqn:Hl;
     [| destruct (Eonet.sources event) as [srcs|]; [| done]]);
    intros [= <-]; simpl; repeat split; try done;
    first [by apply truthy_default | by apply or_lit_nonempty
          | by apply append_nonempty_r].
Qed.

Lemma sample_dataset_displayable now : Forall displayable (sample_dataset now).
Proof.
  unfold sample_dataset, displayable.
  repeat first [apply Forall_nil_2 | apply Forall_cons_2]; by cbn.
Qed.

(** X4: every event the pipeline returns, from whichever source and the
    sample dataset included, has country 'India' and a location, a
    description, a source and a url that are not empty. *)
Theorem every_event_displayable (host : Host) (w : World)
    (s s' : io) (l : list DisasterEvent) :
  fetchFromReliefWeb host w s = (Ok l, s') → Forall displayable l.
Proof.
  intros Hrun.
  destruct (fetchFromReliefWeb_resolves host w s) as (s'' & Hrun' & _).
  rewrite Hrun in Hrun'. injection Hrun' as -> <-.
  unfold chosen.
  destruct (reliefweb_outcome host w) as [primary|] eqn:Hrw.
  { apply reliefweb_outcome_Forall2 in Hrw.
    eapply Forall2_Forall_r; [exact Hrw |]. apply Forall_true.
    intros item x. apply parseReliefWebItem_displayable. }
  destruct (nonempty (gdacs_outcome host w)) as [gdacs|] eqn:Hg.
  { apply nonempty_Some, gdacs_outcome_Forall2 in Hg.
    eapply Forall2_Forall_r; [exact Hg |]. apply Forall_true.
    intros feature x. apply gdacsFeature_displayable. }
  destruct (nonempty (eonet_outcome host w)) as [eonet|] eqn:Hn.
  { apply nonempty_Some, eonet_outcome_Forall2 in Hn.
    eapply Forall2_Forall_r; [exact Hn |]. apply Forall_true.
    intros event x. apply eonetEvent_displayable. }
  apply sample_dataset_displayable.
Qed.

Lemma every_event_displayable_witness : Forall displayable [Fixtures.flood_event].
Proof.
  apply (every_event_displayable Fixtures.host gdacs_only Fixtures.s0
           {| clock := 1720000000240;
              trace := [Fetch reliefweb_url;
                        console_warn primary_failed (Js.TypeError "Failed to fetch");
                        Fetch gdacs_url] |}).
  vm_compute. reflexivity.
Defined.

(** ** When the adapters return *)

(** X5: a call of the GDACS adapter makes one request and leaves nothing
    else in the trace; it returns exactly when the response is ok, its body
    is read, and every feature has its [properties], and then gives one
    event per feature, each with source 'GDACS'. *)
Theorem fetchFromGDACS_returns (host : Host) (w : World) (s : io) :
  (fetchFromGDACS host w s).2 = sent gdacs_url w s ∧
  ((∃ l, (fetchFromGDACS host w s).1 = Ok l) ↔
   ∃ status json,
     gdacs_api w = Response true status (Ok json) ∧
     Forall (λ feature, is_Some (Gdacs.properties_ feature))
            (default [] (Gdacs.features json))) ∧
  (∀ l, (fetchFromGDACS host w s).1 = Ok l →
     length l = length (gdacs_features w) ∧
     Forall (λ e, source e = "GDACS") l).
Proof.
  rewrite fetchFromGDACS_run. simpl. split; [done |]. split.
  - unfold gdacs_outcome.
    destruct (gdacs_api w) as [e | [] status [json | e]]; simpl.
    + split; [by intros [? ?] | by intros (? & ? & ? & _)].
    + rewrite map_r_returns. split.
      * intros Hall. exists status, json. split; [done |].
        eapply Forall_impl; [exact Hall |]. intros feature [e He].
        unfold gdacsFeature in He. by destruct (Gdacs.properties_ feature).
      * intros (? & ? & [= <- <-] & Hall).
        eapply Forall_impl; [exact Hall |]. intros feature [p Hp].
        unfold gdacsFeature. rewrite Hp. by eexists.
    + split; [by intros [? ?] | by intros (? & ? & ? & _)].
    + split; [by intros [? ?] | by intros (? & ? & ? & _)].
    + split; [by intros [? ?] | by intros (? & ? & ? & _)].
  - intros l Hl. apply gdacs_outcome_Forall2 in Hl. split.
    + symmetry. by eapply Forall2_length.
    + eapply Forall2_Forall_r; [exact Hl |]. apply Forall_true.
      intros feature e. unfold gdacsFeature.
      destruct (Gdacs.properties_ feature); [| done]. by intros [= <-].
Qed.

Example fetchFromGDACS_feature_without_properties :
  gdacs_outcome Fixtures.host
    {| reliefweb_api := Fixtures.offline;
       gdacs_api := Response true 200
         (Ok {| Gdacs.features := Some [Fixtures.flood_in_assam;
                                        {| Gdacs.properties_ := None |}] |});
       eonet_api := Fixtures.offline; delay := λ _, 0 |} =
    Throw (read_of_undefined "eventid").
Proof. reflexivity. Qed.

Lemma filter_r_returns {A} (f : A → result bool) l :
  (∃ l', filter_r f l = Ok l') ↔ Forall (λ x, ∃ b, f x = Ok b) l.
Proof.
  induction l as [|x l IH]; simpl.
  - split; [constructor | by eexists].
  - rewrite Forall_cons, <- IH. split.
    + intros [l' Hl']. destruct (f x) as [b|]; [| done]. simpl in Hl'.
      destruct (filter_r f l) as [ys|]; [| done]. split; by eexists.
    + intros [[b ->] [ys ->]]. by eexists.
Qed.

(** The first geometry of the event, if it has one, has coordinates. *)
Definition located (event : Eonet.event) : Prop :=
  ∀ g gs, Eonet.geometry_ event = Some (g :: gs) → is_Some (Eonet.coordinates g).

Lemma inIndia_returns event : (∃ b, inIndia event = Ok b) ↔ located event.
Proof.
  unfold inIndia, located.
  destruct (Eonet.geometry_ event) as [[|g gs]|].
  - split; [done | by eexists].
  - destruct (Eonet.coordinates g) as [coords|] eqn:Hc.
    + split; [| by eexists]. intros _ ? ? [= <- <-]. by rewrite Hc.
    + split; [by intros [? ?] |]. intros Hloc.
      destruct (Hloc g gs eq_refl) as [? Heq]. by rewrite Hc in Heq.
  - split; [done | by eexists].
Qed.

Lemma eonetEvent_returns host event :
  in_region event → (∃ e, eonetEvent host event = Ok e) ↔ complete event.
Proof.
  intros Hin. split; [| by apply eonetEvent_complete].
  intros [e He]. revert He. unfold eonetEvent, first_category_title, complete, rbind.
  destruct (Eonet.categories event) as [[|c cs]|];
    destruct (Js.truthy_opt (Eonet.description event));
    destruct (Eonet.geometry_ event) as [[|g gs]|]; try done;
    (destruct (Js.truthy_opt (Eonet.link event));
     [| destruct (Eonet.sources event); [| done]]);
    intros _; (split; [by eexists _, _ | auto]).
Qed.

(** X6: a call of the EONET adapter makes one request and leaves nothing
    else in the trace; it returns exactly when the response is ok, its body
    is read, every event with a geometry has coordinates in the first one,
    and every event in the region has a category and a link or a list of
    sources.  One event in the region without a category makes the whole
    call throw. *)
Theorem fetchFromEONET_returns (host : Host) (w : World) (s : io) :
  (fetchFromEONET host w s).2 = sent eonet_url w s ∧
  ((∃ l, (fetchFromEONET host w s).1 = Ok l) ↔
   ∃ status json,
     eonet_api w = Response true status (Ok json) ∧
     Forall located (default [] (Eonet.events json)) ∧
     Forall complete (filter in_region (default [] (Eonet.events json)))).
Proof.
  rewrite fetchFromEONET_run. simpl. split; [done |].
  unfold eonet_outcome.
  destruct (eonet_api w) as [e | [] status [json | e]]; simpl;
    try (split; [by intros [? ?] | by intros (? & ? & ? & _)]).
  set (events := default [] (Eonet.events json)).
  assert (Hkept : ∀ kept, filter_r inIndia events = Ok kept →
            (∃ l, map_r (eonetEvent host) kept = Ok l) ↔
            Forall complete (filter in_region events)).
  { intros kept ->%filter_r_inIndia. rewrite map_r_returns, !Forall_forall.
    split; intros Hall event Hev; pose proof Hev as Hin;
      apply list_elem_of_filter in Hin as [Hin _];
      by apply (eonetEvent_returns host event Hin), Hall. }
  split.
  - intros [l Hl]. exists status, json. split; [done |].
    destruct (filter_r inIndia events) as [kept|] eqn:Hf; [| done].
    split.
    + eapply Forall_impl; [apply filter_r_returns; by eexists |].
      intros event. apply inIndia_returns.
    + apply (Hkept kept eq_refl). by eexists.
  - intros (? & ? & [= <- <-] & Hloc & Hcomplete). fold events in Hloc, Hcomplete.
    assert (Hf : ∃ kept, filter_r inIndia events = Ok kept).
    { apply filter_r_returns. eapply Forall_impl; [exact Hloc |].
      intros event. apply inIndia_returns. }
    destruct Hf as [kept Hf]. rewrite Hf. simpl. by apply (Hkept kept Hf).
Qed.

Example fetchFromEONET_uncategorised :
  eonet_outcome Fixtures.host
    {| reliefweb_api := Fixtures.offline; gdacs_api := Fixtures.offline;
       eonet_api := Response true 200
         (Ok {| Eonet.events := Some
                  [ eonet_at "EONET_2" 80 20;
                    {| Eonet.id := Js.Str "EONET_3"; Eonet.title_ := None;
                       Eonet.description := Some "Dust over Rajasthan";
                       Eonet.link := None; Eonet.categories := Some [];
                       Eonet.sources := Some [];
                       Eonet.geometry_ := Some
                         [ {| Eonet.date := None;
                              Eonet.coordinates := Some [73#1; 27#1] |} ] |} ] |});
       delay := λ _, 0 |} =
    Throw (read_of_undefined "title").
Proof. reflexivity. Qed.

(** ** What the console and the page are told *)

(** The warnings a trace records, in order. *)
Definition warnings (tr : list effect) : list (string * Js.error) :=
  omap (λ e, match e with console_warn msg err => Some (msg, err) | _ => None end) tr.

(** The error reports a trace records: [console.error] and the error panel. *)
Definition error_reports (tr : list effect) : list effect :=
  omap (λ e, match e with
             | console_error _ _ | ShowError _ => Some e
             | _ => None
             end) tr.

Definition thrown (msg : string) (r : result (list DisasterEvent))
    : list (string * Js.error) :=
  match r with Throw e => [(msg, e)] | Ok _ => [] end.

Ltac trace_steps :=
  unfold sent, logged, warned, warnings, error_reports, requests; simpl;
  repeat rewrite omap_app; simpl;
  repeat rewrite app_nil_r; repeat rewrite <- app_assoc; try reflexivity.

(** X7: a run of the orchestrator warns on the console once for each
    adapter that threw, in the order ReliefWeb, GDACS, EONET and with the
    error it threw; an adapter that came back with an empty list, or that
    was not asked, leaves no warning. *)
Theorem fetchFromReliefWeb_warnings (host : Host) (w : World) (s : io) :
  warnings (trace (fetchFromReliefWeb host w s).2) =
    warnings (trace s) ++
    match reliefweb_outcome host w with
    | Ok _ => []
    | Throw e =>
        (primary_failed, e) ::
        match nonempty (gdacs_outcome host w) with
        | Some _ => []
        | None =>
            thrown "GDACS failed:" (gdacs_outcome host w) ++
            match nonempty (eonet_outcome host w) with
            | Some _ => []
            | None => thrown "EONET failed:" (eonet_outcome host w)
            end
        end
    end.
Proof.
  rewrite fetchFromReliefWeb_run. unfold orchestrator_run, alternatives_run.
  destruct (reliefweb_outcome host w) as [l | e]; [trace_steps |].
  destruct (gdacs_outcome host w) as [[|g gs] | eg]; simpl; [| trace_steps |];
    destruct (eonet_outcome host w) as [[|x xs] | ee]; simpl; trace_steps.
Qed.

Example warnings_all_down :
  warnings (trace (fetchFromReliefWeb Fixtures.host Fixtures.all_down Fixtures.s0).2) =
    [ (primary_failed, Js.TypeError "Failed to fetch");
      ("GDACS failed:", Js.TypeError "Failed to fetch");
      ("EONET failed:", Js.TypeError "Failed to fetch") ].
Proof. reflexivity. Qed.

Lemma orchestrator_run_quiet w host s :
  error_reports (trace (orchestrator_run host w s).2) = error_reports (trace s).
Proof.
  unfold orchestrator_run, alternatives_run.
  destruct (reliefweb_outcome host w) as [l | e]; [trace_steps |].
  destruct (gdacs_outcome host w) as [[|g gs] | eg]; simpl; [| trace_steps |];
    destruct (eonet_outcome host w) as [[|x xs] | ee]; simpl; trace_steps.
Qed.

(** The time spent awaiting the requests to [urls]. *)
Definition waited (w : World) (urls : list string) : Z :=
  foldr (λ url t, delay w url + t) 0 urls.

Lemma orchestrator_run_clock host w s :
  (∃ rest, trace (orchestrator_run host w s).2 = trace s ++ rest) ∧
  clock (orchestrator_run host w s).2 = clock s + waited w (attempted host w).
Proof.
  unfold orchestrator_run, alternatives_run, attempted, waited.
  destruct (reliefweb_outcome host w) as [l | e];
    [| destruct (gdacs_outcome host w) as [[|g gs] | eg];
       try destruct (eonet_outcome host w) as [[|x xs] | ee]];
    (split; [eexists; unfold sent, logged, warned; simpl;
             rewrite <- ?app_assoc; reflexivity
            | simpl; lia]).
Qed.

(** X8: on a cache miss [fetchDisasterData] never takes its [catch] branch:
    it shows the loading panel, returns the list the orchestrator chose,
    stores that list (the sample dataset and the empty list like any other)
    stamped with the clock read after the last request, and reports no
    error on the console or the page. *)
Theorem fetchDisasterData_miss (host : Host) (cache : Cache)
    (w : World) (s : io) :
  cache_valid cache (clock s) = false →
  ∃ s',
    fetchDisasterData host cache w s =
      (Ok (Some (chosen host w (clock s')),
           cache_put (chosen host w (clock s')) (clock s') cache), s') ∧
    (∃ rest, trace s' = trace s ++ ShowLoading :: rest) ∧
    clock s' = clock s + waited w (attempted host w) ∧
    error_reports (trace s') = error_reports (trace s).
Proof.
  intros Hmiss. unfold fetchDisasterData.
  rewrite fetchDisasterData_with_run, Hmiss, fetchFromReliefWeb_run.
  destruct (orchestrator_run_clock host w (logged ShowLoading s)) as [[rest Htr] Hclock].
  pose proof (orchestrator_run_quiet w host (logged ShowLoading s)) as Hquiet.
  destruct (orchestrator_run_spec host w (logged ShowLoading s)) as (s' & Hrun & _).
  rewrite Hrun in *. cbn [snd] in *.
  exists s'. split; [reflexivity |]. split; [| split].
  - exists ([] ++ rest). rewrite Htr. unfold logged. simpl. by rewrite <- app_assoc.
  - rewrite Hclock. reflexivity.
  - rewrite Hquiet. trace_steps.
Qed.

Lemma fetchDisasterData_miss_witness :
  ∃ s',
    fetchDisasterData Fixtures.host new_cache Fixtures.all_down Fixtures.s0 =
      (Ok (Some (chosen Fixtures.host Fixtures.all_down (clock s')),
           cache_put (chosen Fixtures.host Fixtures.all_down (clock s')) (clock s')
             new_cache), s') ∧
    (∃ rest, trace s' = trace Fixtures.s0 ++ ShowLoading :: rest) ∧
    clock s' = clock Fixtures.s0 +
               waited Fixtures.all_down (attempted Fixtures.host Fixtures.all_down) ∧
    error_reports (trace s') = error_reports (trace Fixtures.s0).
Proof.
  apply (fetchDisasterData_miss Fixtures.host new_cache Fixtures.all_down Fixtures.s0).
  reflexivity.
Defined.

(** X9: whatever the cache holds, after [clearCache] it is invalid at every
    reading of the clock and keeps its duration, so the next
    [fetchDisasterData] runs the orchestrator and asks ReliefWeb first. *)
Theorem clearCache_refetches (host : Host) (cache : Cache)
    (w w2 : World) (s s2 : io) :
  ∃ cleared s1,
    clearCache cache w s = (Ok cleared, s1) ∧
    duration cleared = duration cache ∧
    clock s1 = clock s ∧
    (∀ now, cache_valid cleared now = false) ∧
    ∃ asked,
      requests (trace (fetchDisasterData host cleared w2 s2).2) =
        requests (trace s2) ++ reliefweb_url :: asked.
Proof.
  eexists _, _. split; [reflexivity |]. split; [done |]. split; [done |].
  split; [done |].
  unfold fetchDisasterData. rewrite fetchDisasterData_with_run.
  change (cache_valid _ (clock s2)) with false. cbv iota.
  destruct (fetchFromReliefWeb_resolves host w2 (logged ShowLoading s2))
    as (s' & -> & Hreq).
  exists (tail (attempted host w2)). cbn [snd].
  by rewrite Hreq, requests_logged.
Qed.

(** ** Ranking twice *)

Lemma well_formed_sort l : Forall well_formed l → Forall well_formed (sort compareFn l).
Proof. intros Hl. by rewrite sort_perm. Qed.

Lemma sort_ranked l :
  Forall well_formed l → StronglySorted ranked_before l → sort compareFn l = l.
Proof.
  intros Hl Hs. symmetry.
  apply (stable_sort_unique rank_key key_le key_le_total key_le_antisym).
  - exact Hs.
  - by apply (sort_sorted compareFn rank_key key_le well_formed key_le_total
                key_le_trans compareFn_key).
  - intros k. symmetry.
    by apply (sort_stable compareFn rank_key key_le well_formed key_le_total
                compareFn_key).
Qed.

Lemma sort_sort l :
  Forall well_formed l → sort compareFn (sort compareFn l) = sort compareFn l.
Proof.
  intros Hl. apply sort_ranked; [by apply well_formed_sort |].
  by apply (sort_sorted compareFn rank_key key_le well_formed key_le_total
              key_le_trans compareFn_key).
Qed.

(** X10: on events that satisfy the invariants of the record, the ranking
    leaves a list as it is exactly when the list is already in ranked
    order; so ranking a ranked list again changes nothing. *)
Theorem ranking_fixed_points (l : list DisasterEvent) :
  Forall well_formed l →
  (sort compareFn l = l ↔ StronglySorted ranked_before l) ∧
  sort compareFn (sort compareFn l) = sort compareFn l.
Proof.
  intros Hl. split; [| by apply sort_sort]. split.
  - intros <-.
    by apply (sort_sorted compareFn rank_key key_le well_formed key_le_total
                key_le_trans compareFn_key).
  - by apply sort_ranked.
Qed.

Lemma ranking_fixed_points_witness :
  (sort compareFn [dated_event "high" 3000; dated_event "low" 2000] =
     [dated_event "high" 3000; dated_event "low" 2000] ↔
   StronglySorted ranked_before [dated_event "high" 3000; dated_event "low" 2000]) ∧
  sort compareFn (sort compareFn [dated_event "high" 3000; dated_event "low" 2000]) =
    sort compareFn [dated_event "high" 3000; dated_event "low" 2000].
Proof.
  apply ranking_fixed_points. repeat constructor; by eexists.
Defined.

(** ** Rendering *)

Section Rendering.

Variable host : Host.
Variable format : Js.Date → string.

Definition typed (e : DisasterEvent) : Prop := ∃ t, disasterType e = Js.Str t.

Lemma createDisasterCard_returns e :
  (∃ c, createDisasterCard format e = Ok c) ↔ typed e.
Proof.
  unfold createDisasterCard, typed. destruct (disasterType e) as [| z | t | n].
  - split; [by intros [? ?] | by intros [? ?]].
  - split; [by intros [? ?] | by intros [? ?]].
  - split; intros _; by eexists.
  - split; [by intros [? ?] | by intros [? ?]].
Qed.

Lemma cards_return l :
  (∃ cards, map_r (createDisasterCard format) l = Ok cards) ↔ Forall typed l.
Proof.
  rewrite map_r_returns. apply Forall_iff. intros e. apply createDisasterCard_returns.
Qed.

Lemma fetchDisasterData_holds cache w s :
  ∃ l cache' s',
    fetchDisasterData host cache w s = (Ok (Some l, cache'), s') ∧
    data cache' = Some l ∧
    (cache_valid cache (clock s) = true →
       cache' = cache ∧ s' = logged cached_notice s).
Proof.
  destruct (cache_valid cache (clock s)) eqn:Hvalid.
  - unfold fetchDisasterData. rewrite fetchDisasterData_with_run, Hvalid.
    unfold cache_valid in Hvalid.
    destruct (data cache) as [l|] eqn:Hd; [| done].
    exists l, cache, (logged cached_notice s). by rewrite Hd.
  - destruct (fetchDisasterData_refreshes host cache w s Hvalid) as (l & s' & ->).
    by exists l, (cache_put l (clock s') cache), s'.
Qed.

(** The ranked array in the cache. *)
Definition ranked_cache (l : list DisasterEvent) (cache : Cache) : Cache :=
  {| data := Some (sort compareFn l); timestamp := timestamp cache;
     duration := duration cache |}.

Lemma sort_cons_inv {A} (cmp : A → A → option Z) x l :
  ∃ y l', sort cmp (x :: l) = y :: l'.
Proof.
  destruct (sort cmp (x :: l)) as [|y l'] eqn:Hs; [| by eexists _, _].
  pose proof (sort_perm cmp (x :: l)) as Hp. rewrite Hs in Hp.
  by apply Permutation_nil_cons in Hp.
Qed.

Lemma createDisasterCard_throws e err :
  createDisasterCard format e = Throw err → ∃ msg, err = Js.TypeError msg.
Proof.
  unfold createDisasterCard, read_of_undefined.
  destruct (disasterType e); intros [= <-]; by eexists.
Qed.

Lemma cards_throw l err :
  map_r (createDisasterCard format) l = Throw err → ∃ msg, err = Js.TypeError msg.
Proof.
  induction l as [|x l IH]; [done |]. cbn [map_r].
  destruct (createDisasterCard format x) as [c | err'] eqn:Hx.
  - cbn [rbind]. destruct (map_r _ l) as [cs | err'']; [done |].
    intros [= <-]. by apply IH.
  - intros [= <-]. by apply createDisasterCard_throws in Hx.
Qed.

(** X11: when [fetchDisasterData] hands [render] a list that is not empty,
    of events that satisfy the invariants of the record, [render] ranks it
    in the cache and then either shows the ranked cards and the time of the
    update, which it does exactly when the disaster type of every event is
    a string, or rejects with a TypeError and the page as
    [fetchDisasterData] left it. *)
Theorem render_cards (cache : Cache) (w : World) (s s' : io)
    (e : DisasterEvent) (l : list DisasterEvent) (cache' : Cache) :
  fetchDisasterData host cache w s = (Ok (Some (e :: l), cache'), s') →
  Forall well_formed (e :: l) →
  (Forall typed (e :: l) →
     render host format cache w s =
       (Ok (), ranked_cache (e :: l) cache',
        {| clock := clock s';
           trace := trace s' ++ [ShowCards (sort compareFn (e :: l));
                                 ShowLastUpdated (clock s')] |})) ∧
  (¬ Forall typed (e :: l) →
     ∃ msg, render host format cache w s =
              (Throw (Js.TypeError msg), ranked_cache (e :: l) cache', s')).
Proof.
  intros Hfetch _. unfold render. rewrite Hfetch.
  assert (Hcards : (∃ cards, map_r (createDisasterCard format)
                               (sort compareFn (e :: l)) = Ok cards) ↔
                   Forall typed (e :: l)).
  { rewrite cards_return. by rewrite sort_perm. }
  split; intros Htyped.
  - apply Hcards in Htyped as [cards ->]. reflexivity.
  - destruct (map_r _ _) as [cards | err] eqn:Hmap.
    + destruct Htyped. apply Hcards. by eexists.
    + apply cards_throw in Hmap as [msg ->]. by exists msg.
Qed.

(** What a second [render] puts on the page from a cache that holds [l]. *)
Definition shown_again (l : list DisasterEvent) (now : Z) : list effect :=
  match l with
  | [] => [ShowEmpty]
  | _ => [ShowCards l; ShowLastUpdated now]
  end.

(** X12: after a [render] that resolved, a second [render] made while the
    cache is valid makes no request, leaves the cache as it is and shows
    what the cache holds, which is what the first one showed: the empty
    panel, or the same ranked cards (for events that satisfy the invariants
    of the record, on which ranking again changes nothing). *)
Theorem render_again (cache c1 : Cache) (w w2 : World) (s s1 s2 : io) :
  render host format cache w s = (Ok (), c1, s1) →
  (∀ l, data c1 = Some l → Forall well_formed l) →
  cache_valid c1 (clock s2) = true →
  ∃ l,
    data c1 = Some l ∧
    render host format c1 w2 s2 =
      (Ok (), c1,
       {| clock := clock s2;
          trace := trace s2 ++ cached_notice :: shown_again l (clock s2) |}) ∧
    (∃ before after, trace s1 = before ++ shown_again l (clock s1) ++ after).
Proof.
  intros Hrender Hwf Hvalid.
  destruct (fetchDisasterData_holds cache w s) as (l0 & c' & s' & Hf & Hd & _).
  unfold render in Hrender. rewrite Hf in Hrender.
  assert (Hsecond : ∀ l, data c1 = Some l →
            fetchDisasterData host c1 w2 s2 = (Ok (Some l, c1), logged cached_notice s2)).
  { intros l Hl.
    destruct (fetchDisasterData_holds c1 w2 s2) as (l2 & c2 & s2' & Hf2 & Hd2 & Hv).
    destruct (Hv Hvalid) as [-> ->]. rewrite Hf2. congruence. }
  destruct l0 as [|x l0].
  - injection Hrender as <- <-. exists []. split; [done |]. split.
    + unfold render. rewrite (Hsecond [] Hd). unfold logged. simpl.
      by rewrite <- app_assoc.
    + exists (trace s'), []. by simpl.
  - remember (sort compareFn (x :: l0)) as ranked eqn:Hr.
    cbv beta iota zeta in Hrender.
    destruct (map_r (createDisasterCard format) ranked) as [cards|] eqn:Hcards;
      [| done].
    injection Hrender as <- <-.
    assert (Hfix : sort compareFn ranked = ranked).
    { rewrite Hr. apply sort_sort.
      rewrite <- (sort_perm compareFn (x :: l0)), <- Hr. by apply Hwf. }
    destruct ranked as [|y rest].
    { destruct (sort_cons_inv compareFn x l0) as (? & ? & Heq). congruence. }
    exists (y :: rest). split; [done |]. split.
    + unfold render. rewrite (Hsecond (y :: rest) eq_refl).
      cbv beta iota zeta. rewrite Hfix, Hcards.
      unfold shown_again, logged. cbn [clock trace timestamp duration].
      by rewrite <- app_assoc.
    + exists (trace s'), []. unfold shown_again. cbn [clock trace].
      by rewrite app_nil_r.
Qed.

(** X13: on a cache miss, when ReliefWeb answers with no report, [render]
    makes that one request, shows the empty panel and caches the empty
    list; GDACS, EONET and the sample dataset play no part. *)
Theorem render_no_reports (cache : Cache) (w : World) (s : io) :
  cache_valid cache (clock s) = false →
  reliefweb_outcome host w = Ok [] →
  render host format cache w s =
    (Ok (), cache_put [] (clock s + delay w reliefweb_url) cache,
     {| clock := clock s + delay w reliefweb_url;
        trace := trace s ++ [ShowLoading; Fetch reliefweb_url; ShowEmpty] |}).
Proof.
  intros Hmiss Hrw. unfold render, fetchDisasterData.
  rewrite fetchDisasterData_with_run, Hmiss, fetchFromReliefWeb_run.
  unfold orchestrator_run. rewrite Hrw. unfold sent, logged. simpl.
  by rewrite <- !app_assoc.
Qed.

End Rendering.

(** A formatter for the fixtures. *)
Definition show_date (d : Js.Date) : string :=
  match d with Some _ => "1 Jul 2024, 05:30 am" | None => "Invalid Date" end.

(** A GDACS alert that names no event type. *)
Definition untyped_alert : Gdacs.feature :=
  {| Gdacs.properties_ := Some
       {| Gdacs.eventid := Js.Number 1002; Gdacs.name := Some "Alert in Odisha";
          Gdacs.description := None; Gdacs.eventtype := None;
          Gdacs.country := Some "India";
          Gdacs.fromdate := Some "2024-07-01T00:00:00Z";
          Gdacs.alertlevel := Some "Red"; Gdacs.url := None |} |}.

Definition untyped_event : DisasterEvent :=
  {| id := Js.Number 1002; title := Js.Str "Alert in Odisha";
     description := "undefined event in India"; date := Some 1719792000000;
     location := "India"; disasterType := Js.Undefined;
     severity := Js.Str "high"; source := "GDACS"; url := "#";
     country := "India" |}.

Definition gdacs_untyped : World :=
  {| reliefweb_api := Fixtures.offline;
     gdacs_api := Response true 200 (Ok {| Gdacs.features := Some [untyped_alert] |});
     eonet_api := Fixtures.no_events; delay := λ _, 120 |}.

(** The state after a miss that ended at GDACS. *)
Definition after_gdacs : io :=
  {| clock := 1720000000240;
     trace := [ShowLoading; Fetch reliefweb_url;
               console_warn primary_failed (Js.TypeError "Failed to fetch");
               Fetch gdacs_url] |}.

Lemma flood_event_well_formed : Forall well_formed [Fixtures.flood_event].
Proof.
  apply Forall_cons_2; [split; [right; by left | by eexists] | apply Forall_nil_2].
Qed.

Lemma untyped_event_well_formed : Forall well_formed [untyped_event].
Proof.
  apply Forall_cons_2; [split; [by left | by eexists] | apply Forall_nil_2].
Qed.

Lemma render_cards_witness :
  render Fixtures.host show_date new_cache gdacs_only Fixtures.s0 =
    (Ok (), ranked_cache [Fixtures.flood_event]
              (cache_put [Fixtures.flood_event] 1720000000240 new_cache),
     {| clock := 1720000000240;
        trace := trace after_gdacs ++
                 [ShowCards [Fixtures.flood_event]; ShowLastUpdated 1720000000240] |}) ∧
  ∃ msg,
    render Fixtures.host show_date new_cache gdacs_untyped Fixtures.s0 =
      (Throw (Js.TypeError msg),
       ranked_cache [untyped_event]
         (cache_put [untyped_event] 1720000000240 new_cache),
       after_gdacs).
Proof.
  split.
  - apply (proj1 (render_cards Fixtures.host show_date new_cache gdacs_only
                    Fixtures.s0 after_gdacs Fixtures.flood_event []
                    (cache_put [Fixtures.flood_event] 1720000000240 new_cache)
                    eq_refl flood_event_well_formed)).
    repeat constructor. by eexists.
  - apply (proj2 (render_cards Fixtures.host show_date new_cache gdacs_untyped
                    Fixtures.s0 after_gdacs untyped_event []
                    (cache_put [untyped_event] 1720000000240 new_cache)
                    eq_refl untyped_event_well_formed)).
    intros Htyped. apply Forall_cons in Htyped as [[t Ht] _]. discriminate Ht.
Defined.

(** The cache and the state after the flood alert was rendered. *)
Definition flood_cache : Cache :=
  ranked_cache [Fixtures.flood_event]
    (cache_put [Fixtures.flood_event] 1720000000240 new_cache).

Definition after_cards : io :=
  {| clock := 1720000000240;
     trace := trace after_gdacs ++
              [ShowCards [Fixtures.flood_event]; ShowLastUpdated 1720000000240] |}.

Lemma render_again_witness :
  ∃ l,
    data flood_cache = Some l ∧
    render Fixtures.host show_date flood_cache Fixtures.all_down after_cards =
      (Ok (), flood_cache,
       {| clock := clock after_cards;
          trace := trace after_cards ++
                   cached_notice :: shown_again l (clock after_cards) |}) ∧
    (∃ before after,
       trace after_cards = before ++ shown_again l (clock after_cards) ++ after).
Proof.
  apply (render_again Fixtures.host show_date new_cache flood_cache gdacs_only
           Fixtures.all_down Fixtures.s0 after_cards after_cards).
  - vm_compute. reflexivity.
  - intros l [= <-].
    apply Forall_cons_2; [split; [right; by left | by eexists] | apply Forall_nil_2].
  - reflexivity.
Defined.

Lemma render_no_reports_witness :
  render Fixtures.host show_date new_cache Fixtures.primary_empty Fixtures.s0 =
    (Ok (), cache_put [] 1720000000120 new_cache,
     {| clock := 1720000000120;
        trace := [ShowLoading; Fetch reliefweb_url; ShowEmpty] |}).
Proof.
  apply (render_no_reports Fixtures.host show_date new_cache Fixtures.primary_empty
           Fixtures.s0); reflexivity.
Defined.

(** ** The text of a card *)

Fixpoint all_chars (P : ascii → bool) (s : string) : bool :=
  match s with
  | EmptyString => true
  | String c s' => P c && all_chars P s'
  end.

Lemma all_chars_app P a b : all_chars P (a +:+ b) = all_chars P a && all_chars P b.
Proof.
  induction a as [|c a IH]; [done |].
  rewrite append_cons. simpl. by rewrite IH, andb_assoc.
Qed.

Lemma length_append (a b : string) :
  String.length (a +:+ b) = (String.length a + String.length b)%nat.
Proof. induction a as [|c a IH]; [done |]. rewrite append_cons. simpl. by rewrite IH. Qed.

Lemma length_substring0 n s : (String.length (substring0 n s) ≤ n)%nat.
Proof.
  revert s. induction n as [|n IH]; intros [|c s]; simpl; try lia.
  specialize (IH s). lia.
Qed.

(** No [<] of [r] has a [>] after it: [r] holds no complete tag. *)
Definition no_tag (r : string) : Prop :=
  ∀ pre post, r = pre +:+ String "<" post → has_gt post = false.

Lemma no_tag_tail c r : no_tag (String c r) → no_tag r.
Proof. intros Hr pre post ->. by apply (Hr (String c pre) post). Qed.

Lemma has_gt_strip inside s :
  has_gt (strip_tags_from inside s) = true → has_gt s = true.
Proof.
  revert inside. induction s as [|c s IH]; intros inside; [by destruct inside |].
  simpl. destruct inside.
  - case_bool_decide; intros Hg%IH; [done | by rewrite Hg, orb_true_r].
  - destruct (bool_decide (c = "<"%char) && has_gt s) eqn:Hopen.
    + intros Hg%IH. by rewrite Hg, orb_true_r.
    + simpl. rewrite !orb_true_iff. intros [? | Hg%IH]; auto.
Qed.

Lemma no_tag_strip inside s : no_tag (strip_tags_from inside s).
Proof.
  revert inside. induction s as [|c s IH]; intros inside.
  - destruct inside; intros [|? ?] post Heq; discriminate Heq.
  - simpl. destruct inside; [case_bool_decide; apply IH |].
    destruct (bool_decide (c = "<"%char) && has_gt s) eqn:Hopen; [apply IH |].
    intros [|c' pre] post Heq.
    + injection Heq as -> <-. rewrite bool_decide_eq_true_2 in Hopen by done.
      simpl in Hopen. apply not_true_iff_false. intros Hg%has_gt_strip. congruence.
    + rewrite append_cons in Heq. injection Heq as -> Heq. by apply (IH false pre).
Qed.

(** [r] is [s] with characters left out and white space written as a
    space. *)
Inductive thinned : string → string → Prop :=
| thinned_nil : thinned "" ""
| thinned_keep c s r : thinned s r → thinned (String c s) (String c r)
| thinned_drop c s r : thinned s r → thinned (String c s) r
| thinned_space c s r :
    Js.is_space c = true → thinned s r → thinned (String c s) (String " " r).

Lemma thinned_empty s : thinned s "".
Proof. induction s; by constructor. Qed.

Lemma is_space_not_gt c : Js.is_space c = true → c ≠ ">"%char.
Proof. by intros H ->. Qed.

Lemma has_gt_thinned s r : thinned s r → has_gt r = true → has_gt s = true.
Proof.
  induction 1 as [| c s r _ IH | c s r _ IH | c s r Hc _ IH]; simpl; try done.
  - rewrite !orb_true_iff. intros [? | ?]; auto.
  - intros Hg%IH. by rewrite Hg, orb_true_r.
  - intros Hg%IH. by rewrite Hg, orb_true_r.
Qed.

Lemma no_tag_thinned s r : thinned s r → no_tag s → no_tag r.
Proof.
  induction 1 as [| c s r Hsr IH | c s r _ IH | c s r Hc _ IH]; intros Hs; [done | | |].
  - intros [|c' pre] post Heq.
    + injection Heq as -> <-. apply not_true_iff_false.
      intros Hg%(has_gt_thinned _ _ Hsr). by rewrite (Hs "" s eq_refl) in Hg.
    + rewrite append_cons in Heq. injection Heq as -> Heq.
      by apply (IH (no_tag_tail _ _ Hs) pre).
  - apply IH. by eapply no_tag_tail.
  - intros [|c' pre] post Heq; [discriminate Heq |].
    rewrite append_cons in Heq. injection Heq as _ Heq.
    by apply (IH (no_tag_tail _ _ Hs) pre).
Qed.

Lemma thinned_replace_spaces in_run s :
  thinned s (replace_spaces_from " " in_run s).
Proof.
  revert in_run. induction s as [|c s IH]; intros in_run; simpl; [constructor |].
  destruct (Js.is_space c) eqn:Hc; [destruct in_run |]; by constructor.
Qed.

Lemma thinned_trimStart s : thinned s (Js.trimStart s).
Proof.
  induction s as [|c s IH]; simpl; [constructor |].
  destruct (Js.is_space c); [by constructor |].
  clear IH. constructor. induction s; by constructor.
Qed.

Lemma thinned_trimEnd s : thinned s (Js.trimEnd s).
Proof.
  induction s as [|c s IH]; simpl; [constructor |].
  destruct (Js.trimEnd s) as [|c' r]; [| by constructor].
  destruct (Js.is_space c); by constructor.
Qed.

Lemma thinned_substring0 n s : thinned s (substring0 n s).
Proof.
  revert s. induction n as [|n IH]; intros [|c s]; simpl;
    try constructor; try apply thinned_empty. apply IH.
Qed.

Lemma has_gt_app a b : has_gt (a +:+ b) = has_gt a || has_gt b.
Proof.
  induction a as [|c a IH]; [done |].
  rewrite append_cons. simpl. by rewrite IH, orb_assoc.
Qed.

Lemma no_tag_ellipsis r : no_tag r → no_tag (r +:+ "...").
Proof.
  induction r as [|c r IH]; intros Hr.
  - intros [|? [|? [|? [|? ?]]]] post Heq; discriminate Heq.
  - intros [|c' pre] post Heq; rewrite append_cons in Heq.
    + injection Heq as -> <-. rewrite has_gt_app. simpl.
      by rewrite (Hr "" r eq_refl).
    + rewrite append_cons in Heq. injection Heq as -> Heq.
      by apply (IH (no_tag_tail _ _ Hr) pre).
Qed.

(** X14: the description a card shows is at most 203 characters long, and
    no [<] in it has a [>] after it: whatever the event's description, no
    complete tag reaches the page through it. *)
Theorem cardDescription_safe (description : string) :
  (String.length (cardDescription description) ≤ 203)%nat ∧
  no_tag (cardDescription description).
Proof.
  unfold cardDescription.
  set (clean := Js.trim (replaceSpaces " " (stripTags description))).
  assert (Hclean : no_tag clean).
  { unfold clean, Js.trim, replaceSpaces, stripTags.
    eapply no_tag_thinned; [apply thinned_trimEnd |].
    eapply no_tag_thinned; [apply thinned_trimStart |].
    eapply no_tag_thinned; [apply thinned_replace_spaces |].
    apply no_tag_strip. }
  destruct (Nat.ltb_spec 200 (String.length clean)) as [Hlong | Hshort].
  - split.
    + rewrite length_append. pose proof (length_substring0 200 clean) as Hl.
      change (String.length "...") with 3%nat. lia.
    + apply no_tag_ellipsis. eapply no_tag_thinned; [apply thinned_substring0 | done].
  - split; [lia | done].
Qed.

Example cardDescription_markup :
  cardDescription "<p>Heavy   rain in <b>Assam</b>.</p>  <a href='x'>More" =
    "Heavy rain in Assam. More"
  ∧ cardDescription "rainfall < 5 mm" = "rainfall < 5 mm"
  ∧ cardDescription "5 > 3 <script" = "5 > 3 <script".
Proof. repeat split. Qed.

(** ** The colours of a card *)

(** Red and HIGH PRIORITY for high, amber and MEDIUM for medium, green and
    ALERT for everything else. *)
Definition paint (v : Js.value) : Js.value * Js.property badge :=
  if decide (v = Js.Str "high") then (Js.Str "#e63946", Js.Own HIGH_PRIORITY)
  else if decide (v = Js.Str "medium") then (Js.Str "#ffaa00", Js.Own MEDIUM)
  else (Js.Str "#00b894", Js.Own ALERT).

(** A severity the pipeline can produce: one of the three levels, or the
    inherited member that a GDACS alert level named. *)
Definition pipeline_severity (v : Js.value) : Prop :=
  severity_level v ∨ ∃ n, n ∈ Js.Object_prototype ∧ v = Js.Inherited n.

Lemma createDisasterCard_paint format e c :
  pipeline_severity (severity e) →
  createDisasterCard format e = Ok c →
  (background c, badge_label c) = paint (severity e).
Proof.
  intros Hsev. unfold createDisasterCard.
  destruct (disasterType e); try done. intros [= <-]. cbn [background badge_label].
  destruct Hsev as [[-> | [-> | ->]] | (n & Hn & ->)]; try (vm_compute; reflexivity).
  unfold Js.Object_prototype in Hn. each_member Hn.
Qed.

Lemma mapGDACSAlertLevel_pipeline (c : option string) :
  pipeline_severity (mapGDACSAlertLevel (Js.of_option c)).
Proof.
  destruct c as [s|]; [| left; by apply mapGDACSAlertLevel_level].
  destruct (decide (s ∈ Js.Object_prototype)) as [Hin | Hout].
  - right. exists s. split; [done |]. by apply mapGDACS_inherited.
  - left. apply mapGDACSAlertLevel_level. by intros ? [= <-].
Qed.

Lemma pipeline_severities host w s s' l :
  fetchFromReliefWeb host w s = (Ok l, s') →
  Forall (λ e, pipeline_severity (severity e)) l.
Proof.
  intros Hrun.
  destruct (fetchFromReliefWeb_resolves host w s) as (s'' & Hrun' & _).
  rewrite Hrun in Hrun'. injection Hrun' as -> <-.
  unfold chosen.
  destruct (reliefweb_outcome host w) as [primary|] eqn:Hrw.
  { apply reliefweb_outcome_Forall2 in Hrw.
    eapply Forall2_Forall_r; [exact Hrw |]. apply Forall_true.
    intros item x Hx. left. by apply parseReliefWebItem_fields in Hx as [? _]. }
  destruct (nonempty (gdacs_outcome host w)) as [gdacs|] eqn:Hg.
  { apply nonempty_Some, gdacs_outcome_Forall2 in Hg.
    eapply Forall2_Forall_r; [exact Hg |]. apply Forall_true.
    intros feature x. unfold gdacsFeature.
    destruct (Gdacs.properties_ feature); [| done]. intros [= <-].
    apply mapGDACSAlertLevel_pipeline. }
  destruct (nonempty (eonet_outcome host w)) as [eonet|] eqn:Hn.
  { apply nonempty_Some, eonet_outcome_Forall2 in Hn.
    eapply Forall2_Forall_r; [exact Hn |]. apply Forall_true.
    intros event x Hx. left. by apply eonetEvent_fields in Hx as [? _]. }
  eapply Forall_impl; [apply (proj1 (sample_dataset_well_formed _)) |].
  intros x Hx. by left.
Qed.

(** X15: every card made for an event of the pipeline is red with the
    badge HIGH PRIORITY when the severity is high, amber with MEDIUM when it
    is medium, and green with ALERT otherwise; this holds also for a GDACS
    event whose severity is an inherited member and not a level. *)
Theorem card_colours (host : Host) (format : Js.Date → string)
    (w : World) (s s' : io) (l : list DisasterEvent) :
  fetchFromReliefWeb host w s = (Ok l, s') →
  Forall (λ e, ∀ c, createDisasterCard format e = Ok c →
                    (background c, badge_label c) = paint (severity e)) l.
Proof.
  intros Hrun. eapply Forall_impl; [by eapply pipeline_severities |].
  intros e He c. by apply createDisasterCard_paint.
Qed.

(** A GDACS alert whose level names an inherited member. *)
Definition odd_level : World :=
  {| reliefweb_api := Fixtures.offline;
     gdacs_api := Response true 200
       (Ok {| Gdacs.features := Some
                [ {| Gdacs.properties_ := Some
                       {| Gdacs.eventid := Js.Number 1003;
                          Gdacs.name := Some "Cyclone"; Gdacs.description := None;
                          Gdacs.eventtype := Some "TC"; Gdacs.country := None;
                          Gdacs.fromdate := None;
                          Gdacs.alertlevel := Some "valueOf"; Gdacs.url := None |} |} ] |});
     eonet_api := Fixtures.no_events; delay := λ _, 120 |}.

Lemma card_colours_witness :
  ∃ e, severity e = Js.Inherited "valueOf" ∧
    Forall (λ e, ∀ c, createDisasterCard show_date e = Ok c →
                      (background c, badge_label c) = paint (severity e)) [e].
Proof.
  eexists. split; [| apply (card_colours Fixtures.host show_date odd_level
                             (logged ShowLoading Fixtures.s0) after_gdacs);
                     vm_compute; reflexivity].
  reflexivity.
Defined.

(** ** Attribute and text of a card *)







Example data_type_of_tropical_cyclone :
  replaceSpaces "-" (Js.toLowerCase "Tropical  Cyclone") = "tropical-cyclone".
Proof. reflexivity. Qed.

(** Neither [<] nor [>]. *)
Definition text_char (c : ascii) : bool :=
  negb (bool_decide (c = "<"%char)) && negb (bool_decide (c = ">"%char)).

(** None of [&], [<] and [>]. *)
Definition plain_char (c : ascii) : bool :=
  negb (bool_decide (c = "&"%char)) && text_char c.

(** A no-break space (bytes 194, 160) occurs in [s]. *)
Fixpoint has_nbsp (s : string) : bool :=
  match s with
  | EmptyString => false
  | String c s' =>
      match s' with
      | String d _ => Ascii.eqb c "194"%char && Ascii.eqb d "160"%char || has_nbsp s'
      | EmptyString => false
      end
  end.

Lemma entity_text c : all_chars text_char (entity c) = true.
Proof.
  unfold entity. repeat case_bool_decide; subst; try reflexivity.
  unfold text_char. simpl. by rewrite !bool_decide_eq_false_2.
Qed.

Lemma entity_plain c : plain_char c = true → entity c = String c EmptyString.
Proof.
  unfold entity, plain_char, text_char. intros Hc.
  repeat case_bool_decide; simpl in Hc; done.
Qed.

Lemma escape_text_text s : all_chars text_char (escape_text s) = true.
Proof.
  remember (String.length s) as n eqn:Hn. revert s Hn.
  induction n as [n IH] using lt_wf_ind. intros s ->.
  destruct s as [|c [|d s2]];
    [done | cbn [escape_text]; by rewrite all_chars_app, entity_text |].
  assert (H2 : all_chars text_char (escape_text s2) = true)
    by (apply (IH (String.length s2)); [simpl; lia | done]).
  assert (H1 : all_chars text_char (escape_text (String d s2)) = true)
    by (apply (IH (String.length (String d s2))); [simpl; lia | done]).
  change (escape_text (String c (String d s2))) with
    (if Ascii.eqb c "194" && Ascii.eqb d "160"
     then "&nbsp;" +:+ escape_text s2
     else entity c +:+ escape_text (String d s2)).
  destruct (Ascii.eqb c "194" && Ascii.eqb d "160");
    rewrite all_chars_app; [by rewrite H2 | by rewrite entity_text, H1].
Qed.

Lemma escape_text_plain s :
  all_chars plain_char s = true → has_nbsp s = false → escape_text s = s.
Proof.
  induction s as [|c s IH]; [done |]. intros Hs Hn.
  cbn [all_chars] in Hs. apply andb_true_iff in Hs as [Hc Hs].
  destruct s as [|d s2]; [cbn [escape_text]; by rewrite entity_plain |].
  cbn [has_nbsp] in Hn. apply orb_false_iff in Hn as [Hpair Hn].
  change (escape_text (String c (String d s2))) with
    (if Ascii.eqb c "194" && Ascii.eqb d "160"
     then "&nbsp;" +:+ escape_text s2
     else entity c +:+ escape_text (String d s2)).
  rewrite Hpair, (IH Hs Hn), entity_plain by done. reflexivity.
Qed.

(** X17: what [escapeHtml] returns holds neither [<] nor [>], whatever it
    is given; text with none of [&], [<], [>] and the no-break space comes
    back as it is. *)
Theorem escapeHtml_text (text : Js.value) :
  all_chars text_char (escapeHtml text) = true ∧
  (∀ s, text = Js.Str s → all_chars plain_char s = true → has_nbsp s = false →
        escapeHtml text = s).
Proof.
  split.
  - destruct text; simpl; [done | apply escape_text_text..].
  - intros s -> Hs Hn. by apply escape_text_plain.
Qed.

Example escapeHtml_script :
  escapeHtml (Js.Str "<script>alert('x') & more</script>") =
    "&lt;script&gt;alert('x') &amp; more&lt;/script&gt;"
  ∧ escapeHtml (Js.Str ("10" +:+ String "194" (String "160" "km"))) = "10&nbsp;km"
  ∧ escapeHtml Js.Undefined = "".
Proof. repeat split; reflexivity. Qed.
